(** * crsm-operator: the marked-block merge engine and the reconciliation
    state machine of [internal/controller/customresourcestatemetrics_controller.go].

    Go strings are byte sequences: they are modelled as [string] (a list of
    8-bit [ascii]).  Go [int] indices are modelled as [Z]; every index the
    controller computes is bounded by the number of lines, so no 64-bit
    wrap-around can occur.  A run-time panic (slice bounds out of range,
    assignment to an entry of a nil map) is an explicit outcome. *)

From Stdlib Require Import ZArith Ascii String List Lia Bool.
From stdpp Require Import base option list strings gmap.

Local Open Scope Z_scope.

(** ** Outcomes of Go code that may panic *)

Inductive outcome (A : Type) : Type :=
| Done (a : A)
| Panicked.
Arguments Done {A} a.
Arguments Panicked {A}.

Definition obind {A B} (m : outcome A) (k : A -> outcome B) : outcome B :=
  match m with
  | Done a => k a
  | Panicked => Panicked
  end.

(** ** The functions of Go's [strings] package used by the controller,
    with the separator/cutset fixed to the newline byte, as at every call *)

Module Strings.

Definition nl : ascii := "010"%char.
Definition LF : string := String nl EmptyString.

Definition isNL (c : ascii) : bool := Ascii.eqb c nl.

Definition cons_head (c : ascii) (ls : list string) : list string :=
  match ls with
  | l :: rest => String c l :: rest
  | [] => [String c EmptyString]
  end.

(** [strings.Split(s, "\n")]: the pieces between newlines; never empty. *)
Fixpoint Split (s : string) : list string :=
  match s with
  | EmptyString => [EmptyString]
  | String c s' => if isNL c then EmptyString :: Split s' else cons_head c (Split s')
  end.

(** [strings.SplitN(s, "\n", 2)]: at most two pieces, the second one the
    unsplit remainder after the first newline. *)
Fixpoint SplitN2 (s : string) : list string :=
  match s with
  | EmptyString => [EmptyString]
  | String c s' => if isNL c then [EmptyString; s'] else cons_head c (SplitN2 s')
  end.

(** [strings.Join(elems, "\n")]. *)
Fixpoint Join (elems : list string) : string :=
  match elems with
  | [] => EmptyString
  | a :: rest =>
      match rest with
      | [] => a
      | _ :: _ => a +:+ String nl (Join rest)
      end
  end.

(** [strings.HasSuffix(s, "\n")]. *)
Fixpoint HasSuffix (s : string) : bool :=
  match s with
  | EmptyString => false
  | String c s' =>
      match s' with
      | EmptyString => isNL c
      | String _ _ => HasSuffix s'
      end
  end.

(** [strings.TrimSuffix(s, "\n")]: drops one trailing newline, if any. *)
Fixpoint TrimSuffix (s : string) : string :=
  match s with
  | EmptyString => EmptyString
  | String c s' =>
      match s' with
      | EmptyString => if isNL c then EmptyString else s
      | String _ _ => String c (TrimSuffix s')
      end
  end.

Definition isEmpty (s : string) : bool :=
  match s with EmptyString => true | String _ _ => false end.

(** [strings.TrimRight(s, "\n")]: drops every trailing newline. *)
Fixpoint TrimRight (s : string) : string :=
  match s with
  | EmptyString => EmptyString
  | String c s' =>
      let t := TrimRight s' in
      if isNL c && isEmpty t then EmptyString else String c t
  end.

(** [strings.TrimSpace]: leading and trailing white space as defined by
    Unicode is removed.  On the UTF-8 bytes of a Go string the white-space
    runes are the six ASCII ones and the encodings of U+0085, U+00A0,
    U+1680, U+2000..U+200A, U+2028, U+2029, U+202F, U+205F and U+3000. *)
Definition asciiSpace (c : ascii) : bool :=
  match N_of_ascii c with
  | 9 | 10 | 11 | 12 | 13 | 32 => true
  | _ => false
  end%N.

Definition space2 (c1 c2 : ascii) : bool :=
  match N_of_ascii c1, N_of_ascii c2 with
  | 194, 133 | 194, 160 => true
  | _, _ => false
  end%N.

Definition space3 (c1 c2 c3 : ascii) : bool :=
  match N_of_ascii c1, N_of_ascii c2, N_of_ascii c3 with
  | 225, 154, 128 => true
  | 226, 128, n => (128 <=? n)%N && (n <=? 138)%N || (n =? 168)%N || (n =? 169)%N || (n =? 175)%N
  | 226, 129, 159 => true
  | 227, 128, 128 => true
  | _, _, _ => false
  end%N.

(** [strings.TrimLeftFunc(s, unicode.IsSpace)]. *)
Fixpoint trimLeftSpace (s : string) : string :=
  match s with
  | EmptyString => EmptyString
  | String c1 s1 =>
      if asciiSpace c1 then trimLeftSpace s1 else
      match s1 with
      | EmptyString => s
      | String c2 s2 =>
          if space2 c1 c2 then trimLeftSpace s2 else
          match s2 with
          | EmptyString => s
          | String c3 s3 => if space3 c1 c2 c3 then trimLeftSpace s3 else s
          end
      end
  end.

(** The same scan on the reversed bytes, for
    [strings.TrimRightFunc(s, unicode.IsSpace)]. *)
Fixpoint trimLeftSpaceRev (s : string) : string :=
  match s with
  | EmptyString => EmptyString
  | String c1 s1 =>
      if asciiSpace c1 then trimLeftSpaceRev s1 else
      match s1 with
      | EmptyString => s
      | String c2 s2 =>
          if space2 c2 c1 then trimLeftSpaceRev s2 else
          match s2 with
          | EmptyString => s
          | String c3 s3 => if space3 c3 c2 c1 then trimLeftSpaceRev s3 else s
          end
      end
  end.

Definition TrimSpace (s : string) : string :=
  String.rev (trimLeftSpaceRev (String.rev (trimLeftSpace s))).

(** A string without a newline byte. *)
Fixpoint noNL (s : string) : bool :=
  match s with
  | EmptyString => true
  | String c s' => negb (isNL c) && noNL s'
  end.

End Strings.

Import Strings.

(** ** Markers, header and the pure helpers of the controller *)

(** [utils.NamespacedName], internal/utils/utils.go. *)
Definition NamespacedName (name namespace : string) : string :=
  name +:+ "@" +:+ namespace.

(** [fmt.Sprintf(beginMarkerFormat, name)] and [fmt.Sprintf(endMarkerFormat, name)]. *)
Definition beginMarker (name : string) : string :=
  "# BEGIN CustomResourceStateMetrics " +:+ name.
Definition endMarker (name : string) : string :=
  "# END CustomResourceStateMetrics " +:+ name.

(** [cmDataHeader] of [addCustomResourceStateMetric]. *)
Definition cmDataHeader : string :=
  "kind: CustomResourceStateMetrics" +:+ LF +:+ "spec:" +:+ LF +:+ "  resources:" +:+ LF.

(** [cmData] of [addCustomResourceStateMetric]:
    [fmt.Sprintf("%s\n%s%s\n", dataMarkerBegin, dataYaml, dataMarkerEnd)]. *)
Definition cmData (name dataYaml : string) : string :=
  beginMarker name +:+ LF +:+ dataYaml +:+ endMarker name +:+ LF.

(** The loop of [findBlock]; [i] is the index of the head of [lines] and the
    triple is [(found, beginIndex, endIndex)]. *)
Fixpoint findBlock_loop (bm em : string) (lines : list string) (i : Z)
    (st : bool * Z * Z) : bool * Z * Z :=
  match lines with
  | [] => st
  | line :: rest =>
      let '(found, beginIndex, endIndex) := st in
      let beginIndex := if String.eqb line bm then i else beginIndex in
      if String.eqb line em && (beginIndex >? -1)
      then findBlock_loop bm em rest (i + 1) (true, beginIndex, i)
      else findBlock_loop bm em rest (i + 1) (found, beginIndex, endIndex)
  end.

Definition findBlock (name : string) (lines : list string) : bool * Z * Z :=
  findBlock_loop (beginMarker name) (endMarker name) lines 0 (false, -1, -1).

(** The Go slice expression [lines[lo:hi]] on a slice whose capacity is its
    length (as [strings.Split] returns): it panics unless
    [0 <= lo <= hi <= len(lines)]. *)
Definition slice (lines : list string) (lo hi : Z) : outcome (list string) :=
  if (0 <=? lo) && (lo <=? hi) && (hi <=? Z.of_nat (length lines))
  then Done (take (Z.to_nat (hi - lo)) (drop (Z.to_nat lo) lines))
  else Panicked.

Definition joinLines (lines : list string) (start end_ : Z) : outcome string :=
  let lastIndex := Z.of_nat (length lines) - 1 in
  let start := if start <? 0 then 0 else start in
  let '(end_, strip) :=
    if end_ =? lastIndex then (end_, true)
    else if (end_ =? -1) || (end_ >? lastIndex) then (lastIndex, true)
    else (end_, false) in
  obind (slice lines start (end_ + 1)) (fun seg =>
    let result := Join seg in
    Done (if strip then TrimRight result
          else if negb (HasSuffix result) then result +:+ LF
          else result)).

(** ** The block merge engine: the document transformations inside
    [addCustomResourceStateMetric] and [deleteCustomResourceStateMetric] *)

(** Lines 495-557 of [addCustomResourceStateMetric], on the current content
    [data] of [cm.Data[cmKey]]: [None] when the same block is already there
    (the function returns before any write), else the content to write. *)
Definition upsert (data name dataYaml : string) : outcome (option string) :=
  let lines := Split data in
  let '(found, beginIndex, endIndex) := findBlock name lines in
  let data := if String.eqb (TrimSpace data) "{}" then cmDataHeader else data in
  if found then
    obind (slice lines beginIndex (endIndex + 1)) (fun block =>
    if String.eqb (TrimSuffix (cmData name dataYaml)) (Join block) then Done None
    else
      let data := EmptyString in
      obind (if beginIndex >? 0
             then obind (joinLines lines 0 (beginIndex - 1)) (fun j => Done (data +:+ j))
             else Done data) (fun data =>
      let data := data +:+ cmData name dataYaml in
      obind (if endIndex <? Z.of_nat (length lines) - 1
             then obind (joinLines lines (endIndex + 1) (-1)) (fun j => Done (data +:+ j))
             else Done data) (fun data =>
      Done (Some data))))
  else Done (Some (data +:+ cmData name dataYaml)).

(** The document after the add path ran on it. *)
Definition upsertBlock (doc name dataYaml : string) : outcome string :=
  obind (upsert doc name dataYaml) (fun r =>
    Done (match r with Some d => d | None => doc end)).

(** Lines 332-378 of [deleteCustomResourceStateMetric]: [None] when no block
    is found, else the content to write. *)
Definition removeBlock (data name : string) : outcome (option string) :=
  let lines := Split data in
  let '(found, beginIndex, endIndex) := findBlock name lines in
  if negb found then Done None
  else
    let data := EmptyString in
    obind (if beginIndex >? 0
           then obind (joinLines lines 0 (beginIndex - 1)) (fun j => Done (data +:+ j))
           else Done data) (fun data =>
    obind (if endIndex <? Z.of_nat (length lines) - 1
           then obind (joinLines lines (endIndex + 1) (-1)) (fun j => Done (data +:+ j))
           else Done data) (fun data =>
    Done (Some data))).

(** ** Errors and the API objects the controller handles *)

(** Go [error] values: what the API server answers, and [fmt.Errorf] wrapping
    a cause with [%w] (the formatted arguments other than the cause are not
    kept). *)
Inductive error : Type :=
| ErrNotFound
| ErrAlreadyExists
| ErrConflict
| ErrOther (msg : string)
| Errorf (format : string) (cause : error).

(** [apierrors.IsNotFound], which looks through wrapped errors. *)
Fixpoint IsNotFound (err : error) : bool :=
  match err with
  | ErrNotFound => true
  | Errorf _ cause => IsNotFound cause
  | _ => false
  end.

(** [client.IgnoreNotFound]. *)
Definition IgnoreNotFound (err : error) : option error :=
  if IsNotFound err then None else Some err.

Inductive ConditionStatus : Type := ConditionTrue | ConditionFalse | ConditionUnknown.

Record Condition : Type := {
  Type_ : string;
  Status : ConditionStatus;
  Reason : string;
  Message : string;
}.

(** [meta.SetStatusCondition], without the transition time. *)
Fixpoint SetStatusCondition (conditions : list Condition) (newCondition : Condition)
    : list Condition :=
  match conditions with
  | [] => [newCondition]
  | c :: rest =>
      if String.eqb (Type_ c) (Type_ newCondition) then newCondition :: rest
      else c :: SetStatusCondition rest newCondition
  end.

Definition FinalizerName : string := "ksm.jtyr.io/finalizer".
Definition conditionTypeReady : string := "Ready".
Definition reasonAdding : string := "Adding".
Definition reasonRemoving : string := "Removing".
Definition EventTypeNormal : string := "Normal".
Definition EventTypeWarning : string := "Warning".

Record CustomResourceStateMetricsConfigMap : Type := {
  CM_Name : string;
  CM_Namespace : string;
  CM_Key : string;
}.

(** What the controller leaves behind: recorded events and the write calls
    it issued to the API server, in order. *)
Inductive action : Type :=
| Event (eventtype reason message : string)
| Eventf (eventtype reason format : string) (err : error)
| StatusUpdateCall (namespace name : string) (conditions : list Condition)
| InstanceUpdateCall (namespace name : string) (finalizers : list string)
| ConfigMapCreateCall (namespace name : string) (data : option (gmap string string))
| ConfigMapUpdateCall (namespace name : string) (data : option (gmap string string)).

Definition isConfigMapWrite (a : action) : bool :=
  match a with
  | ConfigMapCreateCall _ _ _ | ConfigMapUpdateCall _ _ _ => true
  | _ => false
  end.

Definition isInstanceUpdate (a : action) : bool :=
  match a with
  | InstanceUpdateCall _ _ _ => true
  | _ => false
  end.

(** [cm.Data[key]] on a possibly nil map: a missing key reads as the empty
    string; assigning into a nil map panics. *)
Definition dataGet (data : option (gmap string string)) (key : string) : string :=
  match data with
  | Some m => default EmptyString (m !! key)
  | None => EmptyString
  end.

Definition dataSet (data : option (gmap string string)) (key value : string)
    : outcome (option (gmap string string)) :=
  match data with
  | Some m => Done (Some (<[key := value]> m))
  | None => Panicked
  end.

Section Controller.

(** The resource payloads and their encoders are external
    ([runtime.RawExtension], [encoding/json], [gopkg.in/yaml.v3]). *)
Variable RawExtension : Type.
Variable JSONValue : Type.
Variable MarshalJSON : RawExtension -> error + string.
Variable jsonUnmarshal : string -> error + JSONValue.
(** [yaml.Marshal(&data)] for [data : Data], given [data.Resources]. *)
Variable yamlMarshal : list JSONValue -> error + string.

(** The loop of [decodeData] filling [data.Resources]. *)
Fixpoint decodeResources (resources : list RawExtension) (acc : list JSONValue)
    : error + list JSONValue :=
  match resources with
  | [] => inr acc
  | r :: rest =>
      match MarshalJSON r with
      | inl err => inl (Errorf "failed to encode resources #%d to JSON: %w" err)
      | inr jsonBytes =>
          match jsonUnmarshal jsonBytes with
          | inl err => inl (Errorf "failed to decode resources #%d from JSON: %w" err)
          | inr jsonObj => decodeResources rest (acc ++ [jsonObj])
          end
      end
  end.

(** The tail of [decodeData], from the marshalled string on. *)
Definition stripFirstLine (yamlDataString : string) : string :=
  let yamlDataSplit := SplitN2 yamlDataString in
  if (length yamlDataSplit <? 2)%nat then yamlDataString
  else nth 1 yamlDataSplit EmptyString.

Definition decodeData (resources : list RawExtension) : error + string :=
  match decodeResources resources [] with
  | inl err => inl err
  | inr data =>
      match yamlMarshal data with
      | inl err => inl (Errorf "failed to encode data to YAML: %w" err)
      | inr yamlDataString => inr (stripFirstLine yamlDataString)
      end
  end.

Record CustomResourceStateMetrics : Type := {
  Name : string;
  Namespace : string;
  Generation : Z;
  (** nil, or the time the deletion was requested at *)
  DeletionTimestamp : option Z;
  Finalizers : list string;
  Spec_ConfigMap : CustomResourceStateMetricsConfigMap;
  Spec_Resources : list RawExtension;
  Status_Conditions : list Condition;
}.

Definition withConditions (i : CustomResourceStateMetrics) (c : list Condition) :=
  {| Name := Name i; Namespace := Namespace i; Generation := Generation i;
     DeletionTimestamp := DeletionTimestamp i; Finalizers := Finalizers i;
     Spec_ConfigMap := Spec_ConfigMap i; Spec_Resources := Spec_Resources i;
     Status_Conditions := c |}.

Definition withFinalizers (i : CustomResourceStateMetrics) (f : list string) :=
  {| Name := Name i; Namespace := Namespace i; Generation := Generation i;
     DeletionTimestamp := DeletionTimestamp i; Finalizers := f;
     Spec_ConfigMap := Spec_ConfigMap i; Spec_Resources := Spec_Resources i;
     Status_Conditions := Status_Conditions i |}.

(** [meta.SetStatusCondition(&instance.Status.Conditions, ...)] for the
    Ready condition. *)
Definition setReady (i : CustomResourceStateMetrics) (status : ConditionStatus)
    (reason message : string) : CustomResourceStateMetrics :=
  withConditions i (SetStatusCondition (Status_Conditions i)
    {| Type_ := conditionTypeReady; Status := status;
       Reason := reason; Message := message |}).

(** [controllerutil.ContainsFinalizer], [AddFinalizer], [RemoveFinalizer]. *)
Definition ContainsFinalizer (i : CustomResourceStateMetrics) (f : string) : bool :=
  existsb (String.eqb f) (Finalizers i).
Definition AddFinalizer (i : CustomResourceStateMetrics) (f : string) :=
  if ContainsFinalizer i f then i else withFinalizers i (Finalizers i ++ [f]).
Definition RemoveFinalizer (i : CustomResourceStateMetrics) (f : string) :=
  withFinalizers i (List.filter (fun g => negb (String.eqb g f)) (Finalizers i)).

(** *** The API server and the event recorder, as state

    Objects are keyed by (namespace, name).  [faults n] is the error, if
    any, the API server answers the [n]-th client call with; [calls] counts
    the client calls made so far. *)
Record World : Type := {
  instances : gmap (string * string) CustomResourceStateMetrics;
  configMaps : gmap (string * string) (option (gmap string string));
  faults : nat -> option error;
  calls : nat;
  trace : list action;
}.

Definition M (A : Type) : Type := World -> outcome (A * World).

Definition ret {A} (a : A) : M A := fun w => Done (a, w).
Definition bind {A B} (m : M A) (k : A -> M B) : M B :=
  fun w => match m w with
           | Done (a, w') => k a w'
           | Panicked => Panicked
           end.
Definition lift {A} (o : outcome A) : M A :=
  fun w => match o with Done a => Done (a, w) | Panicked => Panicked end.

Notation "x <- m ;; k" := (bind m (fun x => k))
  (at level 100, m at next level, right associativity).
Notation "m ;;; k" := (bind m (fun _ => k))
  (at level 100, right associativity).

Definition record (a : action) : M unit := fun w =>
  Done (tt, {| instances := instances w; configMaps := configMaps w;
               faults := faults w; calls := calls w; trace := trace w ++ [a] |}).

(** The answer of the API server to the next call. *)
Definition nextFault : M (option error) := fun w =>
  Done (faults w (calls w),
        {| instances := instances w; configMaps := configMaps w;
           faults := faults w; calls := S (calls w); trace := trace w |}).

Definition getInstances : M (gmap (string * string) CustomResourceStateMetrics) :=
  fun w => Done (instances w, w).
Definition getConfigMaps : M (gmap (string * string) (option (gmap string string))) :=
  fun w => Done (configMaps w, w).
Definition putInstances (m : gmap (string * string) CustomResourceStateMetrics) : M unit :=
  fun w => Done (tt, {| instances := m; configMaps := configMaps w;
                        faults := faults w; calls := calls w; trace := trace w |}).
Definition putConfigMaps (m : gmap (string * string) (option (gmap string string))) : M unit :=
  fun w => Done (tt, {| instances := instances w; configMaps := m;
                        faults := faults w; calls := calls w; trace := trace w |}).

(** [r.Get(ctx, key, instance)]. *)
Definition GetInstance (namespace name : string) : M (error + CustomResourceStateMetrics) :=
  f <- nextFault ;;
  match f with
  | Some err => ret (inl err)
  | None =>
      m <- getInstances ;;
      ret (match m !! (namespace, name) with
           | Some i => inr i
           | None => inl ErrNotFound
           end)
  end.

(** [r.Get(ctx, key, cm)]: the [Data] of the ConfigMap, or the error. *)
Definition GetConfigMap (namespace name : string)
    : M (error + option (gmap string string)) :=
  f <- nextFault ;;
  match f with
  | Some err => ret (inl err)
  | None =>
      m <- getConfigMaps ;;
      ret (match m !! (namespace, name) with
           | Some d => inr d
           | None => inl ErrNotFound
           end)
  end.

(** [r.Create(ctx, cm)] and [r.Update(ctx, cm)]. *)
Definition CreateConfigMap (namespace name : string) (data : option (gmap string string))
    : M (option error) :=
  record (ConfigMapCreateCall namespace name data) ;;;
  f <- nextFault ;;
  match f with
  | Some err => ret (Some err)
  | None =>
      m <- getConfigMaps ;;
      putConfigMaps (<[(namespace, name) := data]> m) ;;;
      ret None
  end.

Definition UpdateConfigMap (namespace name : string) (data : option (gmap string string))
    : M (option error) :=
  record (ConfigMapUpdateCall namespace name data) ;;;
  f <- nextFault ;;
  match f with
  | Some err => ret (Some err)
  | None =>
      m <- getConfigMaps ;;
      putConfigMaps (<[(namespace, name) := data]> m) ;;;
      ret None
  end.

(** [r.Update(ctx, instance)]: the status is a subresource and is not
    written by it. *)
Definition UpdateInstance (i : CustomResourceStateMetrics) : M (option error) :=
  record (InstanceUpdateCall (Namespace i) (Name i) (Finalizers i)) ;;;
  f <- nextFault ;;
  match f with
  | Some err => ret (Some err)
  | None =>
      m <- getInstances ;;
      putInstances (alter (fun s => withConditions i (Status_Conditions s))
                      (Namespace i, Name i) m) ;;;
      ret None
  end.

(** [r.Status().Update(ctx, instance)]: only the status is written. *)
Definition UpdateStatus (i : CustomResourceStateMetrics) : M (option error) :=
  record (StatusUpdateCall (Namespace i) (Name i) (Status_Conditions i)) ;;;
  f <- nextFault ;;
  match f with
  | Some err => ret (Some err)
  | None =>
      m <- getInstances ;;
      putInstances (alter (fun s => withConditions s (Status_Conditions i))
                      (Namespace i, Name i) m) ;;;
      ret None
  end.

(** The ConfigMap namespace: the instance's one when none is given. *)
Definition targetNamespace (instance : CustomResourceStateMetrics) : string :=
  let cmNamespace := CM_Namespace (Spec_ConfigMap instance) in
  if String.eqb cmNamespace EmptyString then Namespace instance else cmNamespace.

(** The common ending of the paths of the two functions below: set the
    Ready condition, update the status, return nil unless that failed. *)
Definition finishWith (instance : CustomResourceStateMetrics)
    (status : ConditionStatus) (reason message : string)
    : M (CustomResourceStateMetrics * option error) :=
  let instance := setReady instance status reason message in
  e <- UpdateStatus instance ;;
  match e with
  | Some err =>
      ret (instance, Some (Errorf
        "failed to update status for the CustomResourceStateMetrics instance %s: %w" err))
  | None => ret (instance, None)
  end.

(** [deleteCustomResourceStateMetric]; the instance is returned with the
    changes made through the pointer. *)
Definition deleteCustomResourceStateMetric (instance : CustomResourceStateMetrics)
    (instanceNamespacedName : string) : M (CustomResourceStateMetrics * option error) :=
  let cmName := CM_Name (Spec_ConfigMap instance) in
  let cmNamespace := targetNamespace instance in
  let cmKey := CM_Key (Spec_ConfigMap instance) in
  r <- GetConfigMap cmNamespace cmName ;;
  match r with
  | inl err =>
      record (Event EventTypeNormal reasonRemoving
                "The ConfigMap with the resources doesn't exist.") ;;;
      finishWith instance ConditionFalse reasonRemoving
        "The ConfigMap with the resources doesn't exist."
  | inr data =>
      removed <- lift (removeBlock (dataGet data cmKey) instanceNamespacedName) ;;
      match removed with
      | None =>
          record (Event EventTypeNormal reasonRemoving
                    "Resources don't exist in the ConfigMap.") ;;;
          finishWith instance ConditionFalse reasonRemoving
            "Resources don't exist in the ConfigMap."
      | Some content =>
          data <- lift (dataSet data cmKey content) ;;
          e <- UpdateConfigMap cmNamespace cmName data ;;
          match e with
          | Some err => ret (instance, Some (Errorf "failed to update the ConfigMap: %w" err))
          | None =>
              record (Event EventTypeNormal reasonRemoving
                        "Finished removal of resources from the ConfigMap.") ;;;
              finishWith instance ConditionFalse reasonRemoving
                "Finished the removal of resources from the ConfigMap."
          end
      end
  end.

(** [addCustomResourceStateMetric]. *)
Definition addCustomResourceStateMetric (instance : CustomResourceStateMetrics)
    (instanceNamespacedName : string) : M (CustomResourceStateMetrics * option error) :=
  match decodeData (Spec_Resources instance) with
  | inl err => ret (instance, Some (Errorf "failed to decode resource data: %w" err))
  | inr dataYaml =>
      let cmName := CM_Name (Spec_ConfigMap instance) in
      let cmNamespace := targetNamespace instance in
      let cmKey := CM_Key (Spec_ConfigMap instance) in
      r <- GetConfigMap cmNamespace cmName ;;
      match r with
      | inl err =>
          match IgnoreNotFound err with
          | Some _ => ret (instance, Some (Errorf "failed to get ConfigMap: %w" err))
          | None =>
              let data : gmap string string :=
                <[cmKey := cmDataHeader +:+ cmData instanceNamespacedName dataYaml]> ∅ in
              e <- CreateConfigMap cmNamespace cmName (Some data) ;;
              match e with
              | Some err =>
                  ret (instance, Some (Errorf "failed to create a new ConfigMap: %w" err))
              | None =>
                  record (Event EventTypeNormal reasonAdding
                    "Finished the addition of resources into a newly created ConfigMap.") ;;;
                  finishWith instance ConditionTrue reasonAdding
                    "Finished the addition of resources into a newly created ConfigMap."
              end
          end
      | inr data =>
          upserted <- lift (upsert (dataGet data cmKey) instanceNamespacedName dataYaml) ;;
          match upserted with
          | None =>
              record (Event EventTypeNormal reasonAdding
                        "The same resources already exist in the ConfigMap.") ;;;
              finishWith instance ConditionTrue reasonAdding
                "The same resources already exist in the ConfigMap."
          | Some content =>
              data <- lift (dataSet data cmKey content) ;;
              e <- UpdateConfigMap cmNamespace cmName data ;;
              match e with
              | Some err => ret (instance, Some (Errorf "failed to update ConfigMap: %w" err))
              | None =>
                  record (Event EventTypeNormal reasonAdding
                    "Finished the addition of resources into an existing ConfigMap.") ;;;
                  finishWith instance ConditionTrue reasonAdding
                    "Finished the addition of resources into an existing ConfigMap."
              end
          end
      end
  end.

(** The ending of a failed branch of [Reconcile]: record the event, set
    Ready to false, update the status, return the wrapped error. *)
Definition failWith (instance : CustomResourceStateMetrics) (reason : string)
    (eventFormat message statusFormat errorFormat : string) (err : error)
    : M (option error) :=
  record (Eventf EventTypeWarning reason eventFormat err) ;;;
  let instance := setReady instance ConditionFalse reason message in
  e <- UpdateStatus instance ;;
  match e with
  | Some err' =>
      record (Eventf EventTypeWarning reason "Failed to update status: %v" err') ;;;
      ret (Some (Errorf statusFormat err'))
  | None => ret (Some (Errorf errorFormat err))
  end.

(** The three branches of [Reconcile]. *)
Definition reconcileDeleting (instance : CustomResourceStateMetrics)
    (instanceNamespacedName : string) : M (option error) :=
  record (Event EventTypeNormal reasonRemoving "Deleting resource.") ;;;
  r <- deleteCustomResourceStateMetric instance instanceNamespacedName ;;
  match r with
  | (instance, Some err) =>
      failWith instance reasonRemoving
        "Failed to delete resources from the ConfigMap: %v"
        "Failed to delete resources from the ConfigMap."
        "failed to update status for %s: %w"
        "failed to delete resources from the ConfigMap for the CustomResourceStateMetrics instance %s: %w"
        err
  | (instance, None) =>
      if ContainsFinalizer instance FinalizerName then
        let instance := RemoveFinalizer instance FinalizerName in
        e <- UpdateInstance instance ;;
        match e with
        | Some err =>
            failWith instance reasonRemoving
              "Failed to delete finalizer: %v"
              "Failed to delete finalizer."
              "failed to update status for %s: %w"
              "failed to delete finalizer from the CustomResourceStateMetrics instance %s: %w"
              err
        | None => ret None
        end
      else ret None
  end.

Definition reconcileCreating (instance : CustomResourceStateMetrics)
    (instanceNamespacedName : string) : M (option error) :=
  record (Event EventTypeNormal reasonAdding "Adding resources into the ConfigMap.") ;;;
  let instance := setReady instance ConditionFalse reasonAdding
                    "Adding resources into the ConfigMap." in
  e <- UpdateStatus instance ;;
  match e with
  | Some err =>
      ret (Some (Errorf
        "failed to update status for the CustomResourceStateMetrics instance %s: %w" err))
  | None =>
      r <- addCustomResourceStateMetric instance instanceNamespacedName ;;
      match r with
      | (instance, Some err) =>
          failWith instance reasonAdding
            "Failed to add resources into the ConfigMap: %v"
            "Failed to add resources into the ConfigMap."
            "failed to update status for %s: %w"
            "failed to add resources into the ConfigMap for CustomResourceStateMetrics instance %s: %w"
            err
      | (instance, None) =>
          if negb (ContainsFinalizer instance FinalizerName) then
            let instance := AddFinalizer instance FinalizerName in
            e <- UpdateInstance instance ;;
            match e with
            | Some err =>
                record (Eventf EventTypeWarning reasonAdding
                          "Failed to add finalizer: %v" err) ;;;
                ret (Some (Errorf
                  "failed to add finalizer for the CustomResourceStateMetrics instance %s: %w"
                  err))
            | None => ret None
            end
          else ret None
      end
  end.

Definition reconcileUpdating (instance : CustomResourceStateMetrics)
    (instanceNamespacedName : string) : M (option error) :=
  record (Event "Normal" reasonAdding "Updating resources in the ConfigMap.") ;;;
  r <- addCustomResourceStateMetric instance instanceNamespacedName ;;
  match r with
  | (instance, Some err) =>
      failWith instance reasonAdding
        "Failed to update the ConfigMap: %v"
        "Failed to update the ConfigMap."
        "failed to update status for the CustomResourceStateMetrics instance %s: %w"
        "failed to update resources for CustomResourceStateMetrics instance %s: %w"
        err
  | (instance, None) => ret None
  end.

(** [instance.DeletionTimestamp.IsZero()]. *)
Definition IsZero (t : option Z) : bool :=
  match t with None => true | Some _ => false end.

(** [Reconcile] for the request [(namespace, name)]; the result is the
    returned error ([ctrl.Result] is always empty). *)
Definition Reconcile (namespace name : string) : M (option error) :=
  r <- GetInstance namespace name ;;
  match r with
  | inl err => ret (IgnoreNotFound err)
  | inr instance =>
      let instanceNamespacedName := NamespacedName (Name instance) (Namespace instance) in
      if negb (IsZero (DeletionTimestamp instance)) then
        reconcileDeleting instance instanceNamespacedName
      else if (Generation instance =? 1) && negb (ContainsFinalizer instance FinalizerName) then
        reconcileCreating instance instanceNamespacedName
      else
        reconcileUpdating instance instanceNamespacedName
  end.

End Controller.

Arguments withConditions {RawExtension} i c.
Arguments withFinalizers {RawExtension} i f.
Arguments setReady {RawExtension} i status reason message.
Arguments ContainsFinalizer {RawExtension} i f.
Arguments AddFinalizer {RawExtension} i f.
Arguments RemoveFinalizer {RawExtension} i f.
Arguments targetNamespace {RawExtension} instance.
Arguments ret {RawExtension A} a.
Arguments bind {RawExtension A B} m k.
Arguments lift {RawExtension A} o.
Arguments record {RawExtension} a.
Arguments nextFault {RawExtension}.
Arguments getInstances {RawExtension}.
Arguments getConfigMaps {RawExtension}.
Arguments putInstances {RawExtension} m.
Arguments putConfigMaps {RawExtension} m.
Arguments GetInstance {RawExtension} namespace name.
Arguments GetConfigMap {RawExtension} namespace name.
Arguments CreateConfigMap {RawExtension} namespace name data.
Arguments UpdateConfigMap {RawExtension} namespace name data.
Arguments UpdateInstance {RawExtension} i.
Arguments UpdateStatus {RawExtension} i.
Arguments finishWith {RawExtension} instance status reason message.
Arguments failWith {RawExtension} instance reason eventFormat message statusFormat errorFormat err.
Arguments deleteCustomResourceStateMetric {RawExtension} instance instanceNamespacedName.
Arguments reconcileDeleting {RawExtension} instance instanceNamespacedName.
Arguments decodeResources {RawExtension JSONValue} MarshalJSON jsonUnmarshal resources acc.
Arguments decodeData {RawExtension JSONValue} MarshalJSON jsonUnmarshal yamlMarshal resources.
Arguments addCustomResourceStateMetric {RawExtension JSONValue} MarshalJSON jsonUnmarshal
  yamlMarshal instance instanceNamespacedName.
Arguments reconcileCreating {RawExtension JSONValue} MarshalJSON jsonUnmarshal
  yamlMarshal instance instanceNamespacedName.
Arguments reconcileUpdating {RawExtension JSONValue} MarshalJSON jsonUnmarshal
  yamlMarshal instance instanceNamespacedName.
Arguments Reconcile {RawExtension JSONValue} MarshalJSON jsonUnmarshal yamlMarshal namespace name.
Arguments Name {RawExtension} c.
Arguments Namespace {RawExtension} c.
Arguments Generation {RawExtension} c.
Arguments DeletionTimestamp {RawExtension} c.
Arguments Finalizers {RawExtension} c.
Arguments Spec_ConfigMap {RawExtension} c.
Arguments Spec_Resources {RawExtension} c.
Arguments Status_Conditions {RawExtension} c.
Arguments instances {RawExtension} w.
Arguments configMaps {RawExtension} w.
Arguments faults {RawExtension} w n.
Arguments calls {RawExtension} w.
Arguments trace {RawExtension} w.

(** ** Concrete encoders for the examples

    Payloads that are YAML scalars already, passed through the JSON steps
    unchanged.  [yaml.v3] writes a sequence without items in flow style on
    the line of its key, a sequence with items as a block sequence under
    the key, and ends its output with a newline. *)
Definition scalarJSON (raw : string) : error + string := inr raw.

Definition scalarYAML (data : list string) : error + string :=
  inr (match data with
       | [] => "resources: []" +:+ LF
       | _ :: _ =>
           "resources:" +:+ LF +:+
           fold_right (fun v rest => "    - " +:+ v +:+ LF +:+ rest) EmptyString data
       end).

(** The value and the final state of a run. *)
Definition valueOf {A W : Type} (o : outcome (A * W)) : option A :=
  match o with Done (a, _) => Some a | Panicked => None end.
Definition stateOf {A W : Type} (o : outcome (A * W)) : option W :=
  match o with Done (_, w) => Some w | Panicked => None end.

(** The state after one more client call was answered. *)
Definition afterCall {R : Type} (w : World R) : World R :=
  {| instances := instances w; configMaps := configMaps w;
     faults := faults w; calls := S (calls w); trace := trace w |}.

Definition withTrace {R : Type} (w : World R) (t : list action) : World R :=
  {| instances := instances w; configMaps := configMaps w;
     faults := faults w; calls := calls w; trace := t |}.

(** An instance "a" in namespace "ns" whose resources go to the key
    "config.yaml" of the ConfigMap "cm" of its namespace, and a cluster that
    holds this instance and the ConfigMap with the document [doc]. *)
Definition exampleInstance (deletion : option Z) (finalizers : list string)
    : CustomResourceStateMetrics string :=
  {| Name := "a"; Namespace := "ns"; Generation := 2;
     DeletionTimestamp := deletion; Finalizers := finalizers;
     Spec_ConfigMap := {| CM_Name := "cm"; CM_Namespace := ""; CM_Key := "config.yaml" |};
     Spec_Resources := ["a: b"]; Status_Conditions := [] |}.

Definition exampleWorld (instance : CustomResourceStateMetrics string) (doc : string)
    (faults : nat -> option error) : World string :=
  {| instances := {[ ("ns", "a") := instance ]};
     configMaps := {[ ("ns", "cm") := Some {[ "config.yaml" := doc ]} ]};
     faults := faults; calls := 0; trace := [] |}.

(** Only the [n]-th client call fails, with [e]. *)
Definition failAt (n : nat) (e : error) : nat -> option error :=
  fun m => if Nat.eqb m n then Some e else None.

(** ** The change-admission predicates, internal/utils/predicates.go

    What the predicates read of an object.  Labels are a Go map and
    finalizers a Go slice: nil is kept apart from empty, as
    [reflect.DeepEqual] tells them apart. *)
Record Object : Type := {
  objLabels : option (gmap string string);
  objFinalizers : option (list string);
  objGeneration : Z;
  objNamespace : string;
}.

Inductive event : Type :=
| CreateEvent (object : Object)
| UpdateEvent (objectOld objectNew : Object)
| DeleteEvent (object : Object)
| GenericEvent (object : Object).

(** A [predicate.Funcs]: one answer per kind of event. *)
Definition Predicate : Type := event -> bool.

(** A [labels.Selector], through its [Matches]. *)
Definition Selector : Type := option (gmap string string) -> bool.

(** [LabelSelectorPredicate]. *)
Definition LabelSelectorPredicate (selector : Selector) : Predicate :=
  fun e =>
    match e with
    | CreateEvent object => selector (objLabels object)
    | UpdateEvent _ objectNew => selector (objLabels objectNew)
    | DeleteEvent object => selector (objLabels object)
    | GenericEvent object => selector (objLabels object)
    end.

(** [LabelsChangedPredicate]. *)
Definition LabelsChangedPredicate : Predicate :=
  fun e =>
    match e with
    | CreateEvent _ => true
    | UpdateEvent objectOld objectNew =>
        negb (bool_decide (objLabels objectOld = objLabels objectNew))
    | DeleteEvent _ => false
    | GenericEvent _ => false
    end.

(** [FinalizersChangedPredicate]. *)
Definition FinalizersChangedPredicate : Predicate :=
  fun e =>
    match e with
    | CreateEvent _ => true
    | UpdateEvent objectOld objectNew =>
        negb (bool_decide (objFinalizers objectOld = objFinalizers objectNew))
    | DeleteEvent _ => false
    | GenericEvent _ => false
    end.

(** [namespaceMatches]; [getNamespace] is the client's [Get] of a
    Namespace, giving its labels or an error. *)
Definition namespaceMatches (getNamespace : string -> error + option (gmap string string))
    (selector : Selector) (namespace : string) : bool :=
  match getNamespace namespace with
  | inl _ => false
  | inr nsLabels => selector nsLabels
  end.

(** [NamespaceLabelSelectorPredicate]. *)
Definition NamespaceLabelSelectorPredicate
    (getNamespace : string -> error + option (gmap string string))
    (selector : Selector) : Predicate :=
  fun e =>
    match e with
    | CreateEvent object => namespaceMatches getNamespace selector (objNamespace object)
    | UpdateEvent _ objectNew =>
        namespaceMatches getNamespace selector (objNamespace objectNew)
    | DeleteEvent object => namespaceMatches getNamespace selector (objNamespace object)
    | GenericEvent object => namespaceMatches getNamespace selector (objNamespace object)
    end.

(** controller-runtime's [predicate.GenerationChangedPredicate],
    [predicate.And] and [predicate.Or]. *)
Definition GenerationChangedPredicate : Predicate :=
  fun e =>
    match e with
    | UpdateEvent objectOld objectNew =>
        negb (objGeneration objectNew =? objGeneration objectOld)
    | _ => true
    end.

Definition And (predicates : list Predicate) : Predicate :=
  fun e => forallb (fun p => p e) predicates.

Definition Or (predicates : list Predicate) : Predicate :=
  fun e => existsb (fun p => p e) predicates.

(** [combinedPredicate] of [SetupWithManager]. *)
Definition combinedPredicate
    (getNamespace : string -> error + option (gmap string string))
    (selector namespaceSelector : Selector) : Predicate :=
  And [ Or [ GenerationChangedPredicate; LabelsChangedPredicate; FinalizersChangedPredicate ];
        LabelSelectorPredicate selector;
        NamespaceLabelSelectorPredicate getNamespace namespaceSelector ].

(** A selector that matches every label set, and a cluster in which every
    namespace exists without labels, for the examples. *)
Definition everything : Selector := fun _ => true.
Definition unlabelledNamespaces : string -> error + option (gmap string string) :=
  fun _ => inr None.

(** The object whose labels and namespace an event is judged by. *)
Definition judged (e : event) : Object :=
  match e with
  | CreateEvent object => object
  | UpdateEvent _ objectNew => objectNew
  | DeleteEvent object => object
  | GenericEvent object => object
  end.

(** ** Vocabulary of the statements *)

(** Where a given line occurs in [lines] (positions count from 0). *)
Definition absent (mk : string) (lines : list string) : Prop :=
  forall m : nat, lines !! m <> Some mk.

Definition lastAt (mk : string) (lines : list string) (n : nat) : Prop :=
  lines !! n = Some mk /\ forall m : nat, (n < m)%nat -> lines !! m <> Some mk.

Definition noBegin (name : string) := absent (beginMarker name).
Definition lastBeginAt (name : string) := lastAt (beginMarker name).
Definition lastEndAt (name : string) := lastAt (endMarker name).

(** No end marker comes after a begin marker. *)
Definition noEndAfterBegin (name : string) (lines : list string) : Prop :=
  forall i j : nat, (i < j)%nat ->
    lines !! i = Some (beginMarker name) -> lines !! j = Some (endMarker name) -> False.

(** The range the joiner works on: a negative start counts as 0; an end
    of -1 or beyond the last index counts as the last index. *)
Definition effStart (start : Z) : Z := Z.max 0 start.
Definition effEnd (lines : list string) (end_ : Z) : Z :=
  let lastIndex := Z.of_nat (length lines) - 1 in
  if (end_ =? -1) || (end_ >? lastIndex) then lastIndex else end_.

(** What the splice keeps of the lines before the begin marker and of the
    lines after the end marker ([joinLines] on the two ranges). *)
Definition keptBefore (P : list string) : string :=
  match P with
  | [] => EmptyString
  | _ :: _ => if HasSuffix (Join P) then Join P else Join P +:+ LF
  end.

Definition keptAfter (S : list string) : string :=
  match S with
  | [] => EmptyString
  | _ :: _ => TrimRight (Join S)
  end.

(** A text whose last line, if any, is ended by a newline. *)
Definition terminated (s : string) : Prop := s = EmptyString \/ HasSuffix s = true.

(** The finalizers of the stored instances, and the instance updates issued. *)
Definition finalizersOf {R : Type} (w : World R) : gmap (string * string) (list string) :=
  Finalizers <$> instances w.
Definition instanceUpdates {R : Type} (w : World R) : list action :=
  List.filter isInstanceUpdate (trace w).

(** A computation that neither changes the finalizers of a stored instance
    nor issues an instance update. *)
Definition keeps {R A : Type} (m : M R A) : Prop :=
  forall w a w', m w = Done (a, w') ->
    finalizersOf w' = finalizersOf w /\ instanceUpdates w' = instanceUpdates w.

(** A string without the byte "@". *)
Fixpoint noAt (s : string) : bool :=
  match s with
  | EmptyString => true
  | String c s' => negb (Ascii.eqb c "@"%char) && noAt s'
  end.

(** A string that holds the byte [c]. *)
Fixpoint hasChar (c : ascii) (s : string) : bool :=
  match s with
  | EmptyString => false
  | String x s' => Ascii.eqb x c || hasChar c s'
  end.

(** The first byte of every marker. *)
Definition hash : ascii := "#"%char.

(** ** The unit tests of the controller, on the model

    [TestFindBlock] and [TestJoinLines] of
    [customresourcestatemetrics_controller_test.go]. *)

Definition testBlocks : list string :=
  [ "aaa: bbb";
    beginMarker "foo"; "foo: bar"; endMarker "foo";
    beginMarker "bar"; "bar: baz"; endMarker "bar";
    beginMarker "baz"; "baz: foo"; endMarker "baz" ].

Definition testDigits : list string :=
  ["0"; "1"; "2"; "3"; "4"; "5"; "6"; "7"; "8"; "9"].

(** * Properties *)

Example TestFindBlock :
  findBlock "foo" testBlocks = (true, 1, 3) /\
  findBlock "bar" testBlocks = (true, 4, 6) /\
  findBlock "baz" testBlocks = (true, 7, 9) /\
  findBlock "asd" testBlocks = (false, -1, -1).
Proof. repeat split. Qed.

Example TestJoinLines :
  joinLines testDigits 0 3 = Done (Join ["0"; "1"; "2"; "3"; ""]) /\
  joinLines testDigits 4 7 = Done (Join ["4"; "5"; "6"; "7"; ""]) /\
  joinLines testDigits 7 9 = Done (Join ["7"; "8"; "9"]) /\
  joinLines testDigits 7 (-1) = Done (Join ["7"; "8"; "9"]) /\
  joinLines testDigits (-100) 3 = Done (Join ["0"; "1"; "2"; "3"; ""]) /\
  joinLines testDigits 7 1000 = Done (Join ["7"; "8"; "9"]).
Proof. repeat split. Qed.

(** ** Facts about the string functions *)

Module StringsFacts.

Lemma app_String (c : ascii) (a b : string) : String c a +:+ b = String c (a +:+ b).
Proof. reflexivity. Qed.

Lemma app_empty_l (a : string) : EmptyString +:+ a = a.
Proof. reflexivity. Qed.

Lemma app_assoc (a b c : string) : (a +:+ b) +:+ c = a +:+ (b +:+ c).
Proof.
  induction a as [|x a IH]; [reflexivity |].
  rewrite !app_String. f_equal. exact IH.
Qed.

Lemma app_empty_r (a : string) : a +:+ EmptyString = a.
Proof.
  induction a as [|x a IH]; [reflexivity |].
  rewrite app_String. f_equal. exact IH.
Qed.

Lemma Split_nonempty (s : string) : Split s <> [].
Proof.
  destruct s as [|c s]; simpl; [discriminate |].
  destruct (isNL c); [discriminate |].
  unfold cons_head. destruct (Split s); discriminate.
Qed.

Lemma cons_head_app (c : ascii) (l1 l2 : list string) :
  l1 <> [] -> cons_head c (l1 ++ l2) = cons_head c l1 ++ l2.
Proof. destruct l1; [congruence | reflexivity]. Qed.

Lemma Split_app_nl (a b : string) :
  Split (a +:+ String nl b) = Split a ++ Split b.
Proof.
  induction a as [|c a IH].
  - reflexivity.
  - rewrite app_String. simpl. rewrite IH. destruct (isNL c); [reflexivity |].
    apply cons_head_app, Split_nonempty.
Qed.

Lemma Split_noNL (s : string) : noNL s = true -> Split s = [s].
Proof.
  induction s as [|c s IH]; simpl; [reflexivity |].
  intros [Hc Hs]%andb_true_iff. apply negb_true_iff in Hc.
  rewrite Hc, (IH Hs). reflexivity.
Qed.

Lemma Split_lines_noNL (s : string) : Forall (fun l => noNL l = true) (Split s).
Proof.
  induction s as [|c s IH]; simpl.
  - repeat constructor.
  - destruct (isNL c) eqn:Hc.
    + constructor; [reflexivity | exact IH].
    + unfold cons_head. destruct (Split s) as [|l ls].
      * repeat constructor. simpl. now rewrite Hc.
      * inversion IH; subst. constructor; [|assumption]. simpl. now rewrite Hc.
Qed.

Lemma Join_cons (a : string) (ls : list string) :
  ls <> [] -> Join (a :: ls) = a +:+ String nl (Join ls).
Proof. destruct ls; [congruence | reflexivity]. Qed.

Lemma Join_cons_head (c : ascii) (ls : list string) :
  ls <> [] -> Join (cons_head c ls) = String c (Join ls).
Proof.
  destruct ls as [|l [|l' ls]]; [congruence | reflexivity | reflexivity].
Qed.

Lemma isNL_eq (c : ascii) : isNL c = true -> c = nl.
Proof. apply Ascii.eqb_eq. Qed.

Lemma Join_Split (s : string) : Join (Split s) = s.
Proof.
  induction s as [|c s IH]; simpl; [reflexivity |].
  destruct (isNL c) eqn:Hc.
  - rewrite Join_cons by apply Split_nonempty. rewrite IH, app_empty_l.
    now rewrite (isNL_eq c Hc).
  - rewrite Join_cons_head by apply Split_nonempty. now rewrite IH.
Qed.

Lemma Split_Join (ls : list string) :
  ls <> [] -> Forall (fun l => noNL l = true) ls -> Split (Join ls) = ls.
Proof.
  induction ls as [|a ls IH]; [congruence |].
  intros _ H. inversion H as [|? ? Ha Hls]; subst.
  destruct ls as [|b ls].
  - simpl. now apply Split_noNL.
  - rewrite Join_cons by discriminate. rewrite Split_app_nl.
    rewrite (Split_noNL a Ha), IH; [reflexivity | discriminate | assumption].
Qed.

Lemma Join_app (l1 l2 : list string) :
  l1 <> [] -> l2 <> [] -> Join (l1 ++ l2) = Join l1 +:+ String nl (Join l2).
Proof.
  induction l1 as [|a l1 IH]; [congruence |]. intros _ H2.
  destruct l1 as [|b l1].
  - simpl app. now rewrite Join_cons.
  - change ((a :: b :: l1) ++ l2) with (a :: ((b :: l1) ++ l2)).
    rewrite Join_cons by discriminate.
    rewrite IH by (discriminate || assumption).
    rewrite (Join_cons a (b :: l1)) by discriminate.
    rewrite app_assoc, app_String. reflexivity.
Qed.

Lemma app_LF_cons (s : string) : exists c t, s +:+ LF = String c t.
Proof. destruct s as [|c s]; [now exists nl, EmptyString | now exists c, (s +:+ LF)]. Qed.

Lemma HasSuffix_app_LF (s : string) : HasSuffix (s +:+ LF) = true.
Proof.
  induction s as [|c s IH]; [reflexivity |].
  rewrite app_String. destruct (app_LF_cons s) as (c' & t & E).
  rewrite E in *. exact IH.
Qed.

Lemma TrimSuffix_app_LF (s : string) : TrimSuffix (s +:+ LF) = s.
Proof.
  induction s as [|c s IH]; [reflexivity |].
  rewrite app_String. destruct (app_LF_cons s) as (c' & t & E).
  rewrite E in *. simpl. simpl in IH. now rewrite IH.
Qed.

Lemma HasSuffix_inv (s : string) :
  HasSuffix s = true -> exists t, s = t +:+ LF.
Proof.
  induction s as [|c s IH]; simpl; [discriminate |].
  destruct s as [|c' s'].
  - intros Hc. rewrite (isNL_eq c Hc). now exists EmptyString.
  - intros H. destruct (IH H) as [t Ht]. exists (String c t).
    rewrite app_String. now rewrite <- Ht.
Qed.

(** The pieces of a right-trimmed string start the pieces of the string. *)
Lemma Split_TrimRight (s : string) :
  exists r, Split s = Split (TrimRight s) ++ r.
Proof.
  induction s as [|c s [r IH]]; simpl.
  - now exists [].
  - destruct (isNL c) eqn:Hc; simpl.
    + destruct (TrimRight s) eqn:Ht; simpl.
      * exists (Split s). reflexivity.
      * rewrite Hc. exists r. now rewrite IH.
    + rewrite Hc. exists r. rewrite IH.
      apply cons_head_app, Split_nonempty.
Qed.

Lemma noNL_app (a b : string) : noNL (a +:+ b) = noNL a && noNL b.
Proof.
  induction a as [|c a IH]; [reflexivity |].
  rewrite app_String. simpl. rewrite IH. now rewrite andb_assoc.
Qed.

End StringsFacts.

(** ** Facts about the block locator *)

Section FindBlockFacts.

Variable name : string.
Let B := beginMarker name.
Let E := endMarker name.

Lemma begin_neq_end : beginMarker name <> endMarker name.
Proof. unfold beginMarker, endMarker. intros H. inversion H. Qed.

Lemma eqb_begin_end : String.eqb B E = false.
Proof. apply String.eqb_neq, begin_neq_end. Qed.

Lemma eqb_end_begin : String.eqb E B = false.
Proof. apply String.eqb_neq. intros H. symmetry in H. now apply begin_neq_end in H. Qed.

Lemma findBlock_loop_app (l1 l2 : list string) (i : Z) (st : bool * Z * Z) :
  findBlock_loop B E (l1 ++ l2) i st =
  findBlock_loop B E l2 (i + Z.of_nat (length l1)) (findBlock_loop B E l1 i st).
Proof.
  revert i st. induction l1 as [|x l1 IH]; intros i st.
  - simpl. now rewrite Z.add_0_r.
  - destruct st as [[fd b] e]. cbn [app findBlock_loop length].
    replace (i + Z.of_nat (S (length l1))) with (i + 1 + Z.of_nat (length l1)) by lia.
    destruct (_ && _); apply IH.
Qed.

(** One more line at the end is one more turn of the loop. *)
Lemma findBlock_snoc (lines : list string) (x : string) :
  findBlock name (lines ++ [x]) =
  let '(found, beginIndex, endIndex) := findBlock name lines in
  let i := Z.of_nat (length lines) in
  let beginIndex := if String.eqb x B then i else beginIndex in
  if String.eqb x E && (beginIndex >? -1) then (true, beginIndex, i)
  else (found, beginIndex, endIndex).
Proof.
  unfold findBlock. fold B E. rewrite findBlock_loop_app.
  destruct (findBlock_loop B E lines 0 (false, -1, -1)) as [[fd b] e].
  cbn [findBlock_loop]. rewrite Z.add_0_l.
  destruct (_ && _); reflexivity.
Qed.

(** Lines that are no begin marker leave [beginIndex] alone. *)
Lemma findBlock_loop_no_begin (ls : list string) (i : Z) (fd : bool) (b e : Z) :
  Forall (fun l => l <> B) ls ->
  exists fd' e', findBlock_loop B E ls i (fd, b, e) = (fd', b, e').
Proof.
  intros H. revert i fd e. induction H as [|x ls Hx _ IH]; intros i fd e.
  - now exists fd, e.
  - cbn [findBlock_loop]. apply String.eqb_neq in Hx. rewrite Hx.
    destruct (_ && _); apply IH.
Qed.

(** Lines that are no marker leave the whole state alone. *)
Lemma findBlock_loop_no_marker (ls : list string) (i : Z) (st : bool * Z * Z) :
  Forall (fun l => l <> B) ls -> Forall (fun l => l <> E) ls ->
  findBlock_loop B E ls i st = st.
Proof.
  intros HB HE. revert i st.
  induction ls as [|x ls IH]; intros i [[fd b] e]; [reflexivity |].
  inversion HB as [|? ? HxB HB']; inversion HE as [|? ? HxE HE']; subst.
  cbn [findBlock_loop]. apply String.eqb_neq in HxB, HxE. rewrite HxB, HxE.
  cbn. now apply IH.
Qed.

(** A document of the shape [P ++ [begin] ++ M ++ [end] ++ S], with no
    begin marker in [M] and no marker in [S]. *)
Lemma findBlock_shape (P M S : list string) :
  Forall (fun l => l <> B) M ->
  Forall (fun l => l <> B) S -> Forall (fun l => l <> E) S ->
  findBlock name (P ++ B :: M ++ E :: S) =
  (true, Z.of_nat (length P), Z.of_nat (length P) + 1 + Z.of_nat (length M)).
Proof.
  intros HM HSB HSE. unfold findBlock. fold B E.
  rewrite findBlock_loop_app.
  destruct (findBlock_loop B E P 0 (false, -1, -1)) as [[fd0 b0] e0].
  rewrite Z.add_0_l. cbn [findBlock_loop].
  rewrite String.eqb_refl, eqb_begin_end.
  cbn [andb]. rewrite findBlock_loop_app.
  destruct (findBlock_loop_no_begin M (Z.of_nat (length P) + 1) fd0
              (Z.of_nat (length P)) e0 HM) as (fd1 & e1 & ->).
  cbn [findBlock_loop]. rewrite eqb_end_begin, String.eqb_refl.
  replace (Z.of_nat (length P) >? -1) with true by (symmetry; apply Z.gtb_lt; lia).
  cbn [andb]. now apply findBlock_loop_no_marker.
Qed.

Lemma absent_nil (mk : string) : absent mk [].
Proof. intros m. now rewrite lookup_nil. Qed.

Lemma absent_snoc (mk x : string) (lines : list string) :
  absent mk lines -> x <> mk -> absent mk (lines ++ [x]).
Proof.
  intros H Hx m Hm. apply lookup_snoc_Some in Hm as [[_ Hm] | [_ Hm]].
  - now apply (H m).
  - contradiction.
Qed.

Lemma lastAt_snoc_other (mk x : string) (lines : list string) (n : nat) :
  lastAt mk lines n -> x <> mk -> lastAt mk (lines ++ [x]) n.
Proof.
  intros [Hn Hlast] Hx. split.
  - apply lookup_snoc_Some. left. split; [now apply lookup_lt_Some in Hn | assumption].
  - intros m Hlt Hm. apply lookup_snoc_Some in Hm as [[_ Hm] | [_ Hm]].
    + now apply (Hlast m).
    + contradiction.
Qed.

Lemma lastAt_snoc_same (mk : string) (lines : list string) :
  lastAt mk (lines ++ [mk]) (length lines).
Proof.
  split.
  - apply lookup_snoc_Some. now right.
  - intros m Hlt Hm. apply lookup_lt_Some in Hm. rewrite length_app in Hm.
    simpl in Hm. lia.
Qed.

Lemma lastAt_lt (mk : string) (lines : list string) (n : nat) :
  lastAt mk lines n -> (n < length lines)%nat.
Proof. intros [Hn _]. now apply lookup_lt_Some in Hn. Qed.

Lemma noEndAfterBegin_snoc (x : string) (lines : list string) :
  noEndAfterBegin name lines -> x <> E \/ absent B lines ->
  noEndAfterBegin name (lines ++ [x]).
Proof.
  intros H Hx i j Hij Hi Hj.
  apply lookup_snoc_Some in Hj as [[Hjl Hj] | [Hjl Hj]].
  - apply lookup_snoc_Some in Hi as [[_ Hi] | [Hil _]]; [|lia].
    exact (H i j Hij Hi Hj).
  - apply lookup_snoc_Some in Hi as [[_ Hi] | [Hil _]]; [|lia].
    destruct Hx as [Hx | Hx]; [contradiction | now apply (Hx i)].
Qed.

(** What the locator returns, for every input. *)
Lemma findBlock_spec (lines : list string) (fd : bool) (b e : Z) :
  findBlock name lines = (fd, b, e) ->
  ((b = -1 /\ noBegin name lines) \/
   (exists n, b = Z.of_nat n /\ lastBeginAt name lines n)) /\
  ((fd = false /\ e = -1 /\ noEndAfterBegin name lines) \/
   (fd = true /\ exists n, e = Z.of_nat n /\ lastEndAt name lines n /\
      exists i, (i < n)%nat /\ lines !! i = Some (beginMarker name))).
Proof.
  unfold noBegin, lastBeginAt, lastEndAt. fold B E.
  revert fd b e. induction lines as [|x lines IH] using rev_ind; intros fd b e.
  - intros [= <- <- <-]. split; left.
    + split; [reflexivity | apply absent_nil].
    + repeat split. intros i j _ Hi. now rewrite lookup_nil in Hi.
  - rewrite findBlock_snoc.
    destruct (findBlock name lines) as [[fd0 b0] e0].
    destruct (IH fd0 b0 e0 eq_refl) as [Hb He]. clear IH.
    cbv zeta. fold B E.
    destruct (String.eqb_spec x B) as [-> | HxB].
    + (* a begin marker *)
      rewrite eqb_begin_end. cbn [andb]. intros [= <- <- <-]. split.
      * right. exists (length lines). split; [reflexivity | apply lastAt_snoc_same].
      * destruct He as [(-> & -> & He) | (-> & n & -> & He & i & Hi & HiB)].
        -- left. repeat split. apply noEndAfterBegin_snoc; [assumption |].
           left. apply begin_neq_end.
        -- right. split; [reflexivity |]. exists n. split; [reflexivity |]. split.
           ++ apply lastAt_snoc_other; [assumption | apply begin_neq_end].
           ++ exists i. split; [assumption |]. apply lookup_snoc_Some. left.
              split; [now apply lookup_lt_Some in HiB | assumption].
    + destruct (String.eqb_spec x E) as [-> | HxE]; cbn [andb].
      * (* an end marker *)
        destruct Hb as [(-> & Hb) | (n & -> & Hb)].
        -- cbn. intros [= <- <- <-]. split.
           ++ left. split; [reflexivity |]. now apply absent_snoc.
           ++ destruct He as [(-> & -> & He) | (_ & n & _ & _ & i & _ & HiB)].
              ** left. repeat split. apply noEndAfterBegin_snoc; [assumption | now right].
              ** now apply Hb in HiB.
        -- replace (Z.of_nat n >? -1) with true by (symmetry; apply Z.gtb_lt; lia).
           intros [= <- <- <-]. split.
           ++ right. exists n. split; [reflexivity |]. now apply lastAt_snoc_other.
           ++ right. split; [reflexivity |]. exists (length lines).
              split; [reflexivity |]. split; [apply lastAt_snoc_same |].
              exists n. split; [now apply lastAt_lt in Hb |].
              apply lookup_snoc_Some. left. split; [now apply lastAt_lt in Hb | apply Hb].
      * (* any other line *)
        intros [= <- <- <-]. split.
        -- destruct Hb as [(-> & Hb) | (n & -> & Hb)].
           ++ left. split; [reflexivity |]. now apply absent_snoc.
           ++ right. exists n. split; [reflexivity |]. now apply lastAt_snoc_other.
        -- destruct He as [(-> & -> & He) | (-> & n & -> & He & i & Hi & HiB)].
           ++ left. repeat split. apply noEndAfterBegin_snoc; [assumption | now left].
           ++ right. split; [reflexivity |]. exists n. split; [reflexivity |]. split.
              ** now apply lastAt_snoc_other.
              ** exists i. split; [assumption |]. apply lookup_snoc_Some. left.
                 split; [now apply lookup_lt_Some in HiB | assumption].
Qed.

End FindBlockFacts.

Lemma lastAt_unique (mk : string) (lines : list string) (n n' : nat) :
  lastAt mk lines n -> lastAt mk lines n' -> n = n'.
Proof.
  intros [Hn Hl] [Hn' Hl'].
  destruct (Nat.lt_trichotomy n n') as [H | [H | H]]; [|assumption|].
  - now apply Hl in H.
  - now apply Hl' in H.
Qed.

(** ** The block locator (claims C3 and C10) *)

(** C3, as amended.  When the lines hold exactly one begin marker and one
    end marker of the key, the begin marker first, the locator returns
    [true] with the positions of the two marker lines, the first at most
    the second.  When no end marker comes after a begin marker, it returns
    [false] with [endIndex = -1]; [beginIndex] is then the position of the
    last begin marker, and [-1] only when there is no begin marker. *)
Theorem findBlock_pair_or_none (name : string) :
  (forall P M S : list string,
     Forall (fun l => l <> beginMarker name /\ l <> endMarker name) (P ++ M ++ S) ->
     findBlock name (P ++ beginMarker name :: M ++ endMarker name :: S) =
       (true, Z.of_nat (length P), Z.of_nat (length P) + 1 + Z.of_nat (length M)) /\
     Z.of_nat (length P) <= Z.of_nat (length P) + 1 + Z.of_nat (length M)) /\
  (forall lines : list string,
     noEndAfterBegin name lines ->
     exists b, findBlock name lines = (false, b, -1) /\
       (noBegin name lines -> b = -1) /\
       (forall n, lastBeginAt name lines n -> b = Z.of_nat n)).
Proof.
  split.
  - intros P M S H. split; [|lia].
    rewrite !Forall_app in H. destruct H as (_ & HM & HS).
    apply findBlock_shape.
    + eapply Forall_impl; [exact HM | now intros l [? ?]].
    + eapply Forall_impl; [exact HS | now intros l [? ?]].
    + eapply Forall_impl; [exact HS | now intros l [? ?]].
  - intros lines Hno.
    destruct (findBlock name lines) as [[fd b] e] eqn:Hf.
    destruct (findBlock_spec name lines fd b e Hf) as [Hb He].
    destruct He as [(-> & -> & _) | (_ & n & _ & [HnE _] & i & Hi & HiB)].
    + exists b. split; [reflexivity |].
      destruct Hb as [(-> & Hb) | (n & -> & Hb)].
      * split; [reflexivity |]. intros n [Hn _]. now apply Hb in Hn.
      * split.
        -- intros Habs. destruct Hb as [Hn _]. now apply Habs in Hn.
        -- intros n' Hn'. f_equal. now apply (lastAt_unique _ _ _ _ Hb Hn').
    + destruct (Hno i n Hi HiB HnE).
Qed.

Lemma findBlock_pair_or_none_witness :
  findBlock "foo" ["aaa: bbb"; beginMarker "foo"; "foo: bar"; endMarker "foo"; "x"]
    = (true, 1, 3) /\
  exists b, findBlock "foo" [endMarker "foo"; "x"] = (false, b, -1).
Proof.
  split.
  - apply (proj1 (findBlock_pair_or_none "foo") ["aaa: bbb"] ["foo: bar"] ["x"]).
    repeat constructor; discriminate.
  - destruct (proj2 (findBlock_pair_or_none "foo") [endMarker "foo"; "x"]) as (b & Hb & _).
    + intros i j Hij Hi _. destruct i as [|[|i]]; discriminate.
    + now exists b.
Defined.

(** C3 as stated fails: a begin marker without an end marker gives
    [(false, 0, -1)], not [(false, -1, -1)]. *)
Lemma findBlock_begin_only_counterexample :
  noEndAfterBegin "k" [beginMarker "k"] /\
  findBlock "k" [beginMarker "k"] = (false, 0, -1) /\
  findBlock "k" [beginMarker "k"] <> (false, -1, -1).
Proof.
  split; [|split].
  - intros i j Hij _ Hj. destruct j as [|j]; [lia | discriminate].
  - reflexivity.
  - discriminate.
Qed.

(** C10.  [beginIndex] is the position of the last begin marker of the whole
    input.  When [found] is true, [endIndex] is the position of an end marker
    with a begin marker strictly before it.  When a begin marker follows the
    last end marker, itself after a begin marker, the locator returns [true]
    with [beginIndex > endIndex]. *)
Theorem findBlock_found_indices (name : string) (lines : list string)
    (fd : bool) (b e : Z) :
  findBlock name lines = (fd, b, e) ->
  (forall n, lastBeginAt name lines n -> b = Z.of_nat n) /\
  (fd = true ->
     exists nb ne : nat, b = Z.of_nat nb /\ e = Z.of_nat ne /\
       lastBeginAt name lines nb /\
       lines !! ne = Some (endMarker name) /\
       exists i : nat, (i < ne)%nat /\ lines !! i = Some (beginMarker name)) /\
  (forall i j m : nat, (i < j)%nat -> (j < m)%nat ->
     lines !! i = Some (beginMarker name) -> lastEndAt name lines j ->
     lines !! m = Some (beginMarker name) ->
     fd = true /\ e = Z.of_nat j /\ b > e).
Proof.
  intros Hf. destruct (findBlock_spec name lines fd b e Hf) as [Hb He].
  assert (Hlast : forall n, lastBeginAt name lines n -> b = Z.of_nat n).
  { intros n' Hn'. destruct Hb as [(-> & Hb) | (n & -> & Hb)].
    - destruct Hn' as [Hn' _]. now apply Hb in Hn'.
    - f_equal. now apply (lastAt_unique _ _ _ _ Hb Hn'). }
  split; [exact Hlast | split].
  - intros ->. destruct He as [(? & _) | (_ & ne & -> & [HneE _] & i & Hi & HiB)]; [discriminate |].
    destruct Hb as [(_ & Hb) | (nb & -> & Hb)]; [now apply Hb in HiB |].
    exists nb, ne. repeat split; try apply Hb; try assumption.
    exists i. now split.
  - intros i j m Hij Hjm HiB HjE HmB.
    destruct He as [(_ & _ & He) | (-> & ne & -> & HneE & _)].
    + destruct (He i j Hij HiB (proj1 HjE)).
    + assert (ne = j) as -> by now apply (lastAt_unique _ _ _ _ HneE HjE).
      split; [reflexivity | split; [reflexivity |]].
      destruct Hb as [(_ & Hb) | (nb & -> & [HnbB Hbl])]; [now apply Hb in HiB |].
      destruct (Nat.lt_ge_cases j nb) as [H | H]; [lia |].
      assert (nb < m)%nat as Hlt by lia. now apply Hbl in Hlt.
Qed.

Lemma findBlock_found_indices_witness :
  exists nb ne : nat, 2 = Z.of_nat nb /\ 1 = Z.of_nat ne /\
    lastBeginAt "k" [beginMarker "k"; endMarker "k"; beginMarker "k"] nb /\
    [beginMarker "k"; endMarker "k"; beginMarker "k"] !! ne = Some (endMarker "k") /\
    exists i : nat, (i < ne)%nat /\
      [beginMarker "k"; endMarker "k"; beginMarker "k"] !! i = Some (beginMarker "k").
Proof.
  apply (findBlock_found_indices "k"
           [beginMarker "k"; endMarker "k"; beginMarker "k"] true 2 1);
    reflexivity.
Defined.

(** ** The line-range joiner (claim C4) *)

Lemma HasSuffix_TrimRight (s : string) : HasSuffix (TrimRight s) = false.
Proof.
  induction s as [|c s IH]; [reflexivity |].
  simpl. destruct (isNL c) eqn:Hc; simpl.
  - destruct (TrimRight s) eqn:Ht; [reflexivity | exact IH].
  - destruct (TrimRight s) eqn:Ht; [simpl; exact Hc | exact IH].
Qed.

(** C4, as amended.  On a non-empty line list, with the start clamped to 0
    and an end of -1 or beyond the last index taken as the last index: when
    the clamped start is at most the effective end plus one, the joiner
    returns the lines of that range joined by newlines, with every trailing
    newline stripped when the effective end is the last index, and otherwise
    ending with a newline, one being appended only when the joined text does
    not already end with one.  When the clamped start is larger, the slice
    expression panics. *)
Theorem joinLines_range (lines : list string) (start end_ : Z) :
  lines <> [] ->
  let lastIndex := Z.of_nat (length lines) - 1 in
  let s := effStart start in
  let e := effEnd lines end_ in
  let seg := take (Z.to_nat (e + 1 - s)) (drop (Z.to_nat s) lines) in
  (s <= e + 1 ->
     exists r, joinLines lines start end_ = Done r /\
       (e = lastIndex -> r = TrimRight (Join seg) /\ HasSuffix r = false) /\
       (e <> lastIndex ->
          r = (if HasSuffix (Join seg) then Join seg else Join seg +:+ LF) /\
          HasSuffix r = true)) /\
  (e + 1 < s -> joinLines lines start end_ = Panicked).
Proof.
  intros Hne lastIndex s e seg.
  assert (Hlen : 0 <= lastIndex).
  { unfold lastIndex. destruct lines; [congruence | simpl length; lia]. }
  assert (Hs : (if start <? 0 then 0 else start) = s).
  { unfold s, effStart. destruct (Z.ltb_spec start 0); lia. }
  assert (He : (if end_ =? lastIndex then (end_, true)
                else if (end_ =? -1) || (end_ >? lastIndex) then (lastIndex, true)
                else (end_, false)) = (e, e =? lastIndex)).
  { unfold e, effEnd. fold lastIndex.
    destruct (Z.eqb_spec end_ lastIndex) as [-> | Hn].
    - replace (lastIndex =? -1) with false by (symmetry; apply Z.eqb_neq; lia).
      rewrite Z.gtb_ltb, Z.ltb_irrefl. cbn. now rewrite Z.eqb_refl.
    - destruct ((end_ =? -1) || (end_ >? lastIndex)).
      + now rewrite Z.eqb_refl.
      + apply Z.eqb_neq in Hn. now rewrite Hn. }
  assert (Hle : e <= lastIndex).
  { unfold e, effEnd. fold lastIndex.
    destruct (Z.eqb_spec end_ (-1)); cbn; [lia |].
    rewrite Z.gtb_ltb. destruct (Z.ltb_spec lastIndex end_); lia. }
  unfold joinLines. fold lastIndex. rewrite Hs, He. unfold slice.
  assert (H0 : 0 <= s) by (unfold s, effStart; lia).
  split.
  - intros Hse.
    replace ((0 <=? s) && (s <=? e + 1) && (e + 1 <=? Z.of_nat (length lines)))
      with true by (symmetry; rewrite !andb_true_iff, !Z.leb_le; unfold lastIndex in *; lia).
    cbn [obind]. fold seg. eexists. split; [reflexivity |].
    split.
    + intros Heq. apply Z.eqb_eq in Heq. rewrite Heq.
      split; [reflexivity | apply HasSuffix_TrimRight].
    + intros Hneq. apply Z.eqb_neq in Hneq. rewrite Hneq.
      destruct (HasSuffix (Join seg)) eqn:Hsuf; cbn [negb].
      * split; [reflexivity | exact Hsuf].
      * split; [reflexivity | apply StringsFacts.HasSuffix_app_LF].
  - intros Hlt.
    replace ((0 <=? s) && (s <=? e + 1) && (e + 1 <=? Z.of_nat (length lines)))
      with false; [reflexivity |].
    symmetry. apply andb_false_iff. left. apply andb_false_iff. right.
    apply Z.leb_gt. lia.
Qed.

Lemma joinLines_range_witness :
  exists r, joinLines ["0"; "1"; "2"; "3"] (-100) 1 = Done r /\
    (effEnd ["0"; "1"; "2"; "3"] 1 = 3 ->
       r = TrimRight (Join ["0"; "1"]) /\ HasSuffix r = false) /\
    (effEnd ["0"; "1"; "2"; "3"] 1 <> 3 ->
       r = (if HasSuffix (Join ["0"; "1"]) then Join ["0"; "1"]
            else Join ["0"; "1"] +:+ LF) /\
       HasSuffix r = true).
Proof.
  apply (joinLines_range ["0"; "1"; "2"; "3"] (-100) 1); [discriminate |].
  vm_compute. discriminate.
Defined.

(** C4 as stated fails twice: a range that ends with empty lines, not at the
    last index, gives a text ending with two newlines; and a start beyond
    the end gives no text at all. *)
Lemma joinLines_counterexample :
  joinLines ["a"; ""; ""; "b"] 0 2 = Done ("a" +:+ LF +:+ LF) /\
  HasSuffix (TrimSuffix ("a" +:+ LF +:+ LF)) = true /\
  joinLines ["a"; "b"; "c"] 2 0 = Panicked.
Proof. repeat split. Qed.

(** ** The merge engine on a document of known shape *)

Lemma slice_middle (P X S : list string) :
  slice (P ++ X ++ S) (Z.of_nat (length P)) (Z.of_nat (length P) + Z.of_nat (length X))
  = Done X.
Proof.
  unfold slice.
  replace (_ && _ && _) with true.
  - f_equal. rewrite Nat2Z.id, drop_app_length.
    replace (Z.to_nat _) with (length X) by lia. apply take_app_length.
  - symmetry. rewrite !andb_true_iff, !Z.leb_le, !length_app. lia.
Qed.

Lemma joinLines_prefix (P R : list string) :
  P <> [] -> R <> [] ->
  joinLines (P ++ R) 0 (Z.of_nat (length P) - 1) = Done (keptBefore P).
Proof.
  intros HP HR. unfold joinLines. rewrite length_app.
  assert (0 < length P)%nat by (destruct P; [congruence | simpl; lia]).
  assert (0 < length R)%nat by (destruct R; [congruence | simpl; lia]).
  cbn [Z.ltb Z.compare].
  replace (_ =? _) with false by (symmetry; apply Z.eqb_neq; lia).
  replace (Z.of_nat (length P) - 1 =? -1) with false by (symmetry; apply Z.eqb_neq; lia).
  replace (_ >? _) with false by (symmetry; rewrite Z.gtb_ltb; apply Z.ltb_ge; lia).
  cbn [orb].
  replace (Z.of_nat (length P) - 1 + 1) with (0 + Z.of_nat (length P)) by lia.
  pose proof (slice_middle [] P R) as Hs. cbn [app length] in Hs.
  change (Z.of_nat 0) with 0 in Hs. rewrite Hs. cbn [obind].
  destruct P; [congruence |]. unfold keptBefore.
  destruct (HasSuffix _); reflexivity.
Qed.

Lemma joinLines_suffix (Q S : list string) :
  S <> [] ->
  joinLines (Q ++ S) (Z.of_nat (length Q)) (-1) = Done (keptAfter S).
Proof.
  intros HS. unfold joinLines. rewrite length_app.
  assert (0 < length S)%nat by (destruct S; [congruence | simpl; lia]).
  replace (Z.of_nat (length Q) <? 0) with false by (symmetry; apply Z.ltb_ge; lia).
  replace (-1 =? _) with false by (symmetry; apply Z.eqb_neq; lia).
  rewrite Z.eqb_refl. cbn [orb].
  replace (Z.of_nat (length Q + length S) - 1 + 1)
    with (Z.of_nat (length Q) + Z.of_nat (length S)) by lia.
  pose proof (slice_middle Q S []) as Hs. rewrite app_nil_r in Hs.
  rewrite Hs. cbn [obind]. destruct S; [congruence | reflexivity].
Qed.

Lemma shape_block (name : string) (P M S : list string) :
  slice (P ++ beginMarker name :: M ++ endMarker name :: S)
    (Z.of_nat (length P)) (Z.of_nat (length P) + 1 + Z.of_nat (length M) + 1)
  = Done (beginMarker name :: M ++ [endMarker name]).
Proof.
  set (B := beginMarker name). set (E := endMarker name).
  replace (P ++ B :: M ++ E :: S) with (P ++ (B :: M ++ [E]) ++ S)
    by (cbn [app]; now rewrite <- (List.app_assoc M [E] S)).
  replace (Z.of_nat (length P) + 1 + Z.of_nat (length M) + 1)
    with (Z.of_nat (length P) + Z.of_nat (length (B :: M ++ [E])))
    by (cbn [length]; rewrite length_app; cbn [length]; lia).
  apply slice_middle.
Qed.

Lemma shape_before (P R : list string) :
  R <> [] ->
  (if Z.of_nat (length P) >? 0
   then obind (joinLines (P ++ R) 0 (Z.of_nat (length P) - 1))
          (fun j => Done (EmptyString +:+ j))
   else Done EmptyString) = Done (keptBefore P).
Proof.
  intros HR. destruct P as [|x P']; [reflexivity |].
  replace (_ >? 0) with true by (symmetry; rewrite Z.gtb_ltb; apply Z.ltb_lt; simpl; lia).
  rewrite joinLines_prefix; [reflexivity | discriminate | assumption].
Qed.

Lemma shape_after (Q S : list string) (data : string) :
  (if Z.of_nat (length Q) - 1 <? Z.of_nat (length (Q ++ S)) - 1
   then obind (joinLines (Q ++ S) (Z.of_nat (length Q) - 1 + 1) (-1))
          (fun j => Done (data +:+ j))
   else Done data) = Done (data +:+ keptAfter S).
Proof.
  rewrite length_app. destruct S as [|x S'].
  - replace (_ <? _) with false by (symmetry; apply Z.ltb_ge; simpl; lia).
    cbn [keptAfter]. now rewrite StringsFacts.app_empty_r.
  - replace (_ <? _) with true by (symmetry; apply Z.ltb_lt; simpl length; lia).
    replace (Z.of_nat (length Q) - 1 + 1) with (Z.of_nat (length Q)) by lia.
    rewrite joinLines_suffix; [reflexivity | discriminate].
Qed.

Lemma shape_assoc (name : string) (P M S : list string) :
  P ++ beginMarker name :: M ++ endMarker name :: S
  = (P ++ beginMarker name :: M ++ [endMarker name]) ++ S.
Proof.
  rewrite <- !List.app_assoc. cbn [app]. now rewrite <- (List.app_assoc M [_] S).
Qed.

Lemma shape_end_index (name : string) (P M : list string) :
  Z.of_nat (length P) + 1 + Z.of_nat (length M)
  = Z.of_nat (length (P ++ beginMarker name :: M ++ [endMarker name])) - 1.
Proof. rewrite length_app. cbn [length]. rewrite length_app. cbn [length]. lia. Qed.

(** The add path on a document whose lines are
    [P ++ [begin] ++ M ++ [end] ++ S], with no begin marker in [M] and no
    marker in [S]. *)
Lemma upsert_shape (name : string) (P M S : list string) (doc dataYaml : string) :
  Forall (fun l => l <> beginMarker name) M ->
  Forall (fun l => l <> beginMarker name) S ->
  Forall (fun l => l <> endMarker name) S ->
  Split doc = P ++ beginMarker name :: M ++ endMarker name :: S ->
  upsert doc name dataYaml =
  Done (if String.eqb (TrimSuffix (cmData name dataYaml))
             (Join (beginMarker name :: M ++ [endMarker name]))
        then None
        else Some (keptBefore P +:+ cmData name dataYaml +:+ keptAfter S)).
Proof.
  intros HM HSB HSE Hd. unfold upsert. rewrite Hd.
  rewrite (findBlock_shape name P M S HM HSB HSE).
  rewrite shape_block. cbn [obind].
  destruct (String.eqb _ _); [reflexivity |].
  rewrite shape_before by discriminate. cbn [obind].
  rewrite (shape_assoc name), (shape_end_index name), shape_after. cbn [obind].
  now rewrite StringsFacts.app_assoc.
Qed.

(** The delete path on such a document. *)
Lemma removeBlock_shape (name : string) (P M S : list string) (doc : string) :
  Forall (fun l => l <> beginMarker name) M ->
  Forall (fun l => l <> beginMarker name) S ->
  Forall (fun l => l <> endMarker name) S ->
  Split doc = P ++ beginMarker name :: M ++ endMarker name :: S ->
  removeBlock doc name = Done (Some (keptBefore P +:+ keptAfter S)).
Proof.
  intros HM HSB HSE Hd. unfold removeBlock. rewrite Hd.
  rewrite (findBlock_shape name P M S HM HSB HSE).
  cbn [negb]. rewrite shape_before by discriminate. cbn [obind].
  rewrite (shape_assoc name), (shape_end_index name), shape_after. reflexivity.
Qed.

(** ** Markers and terminated texts *)

Lemma noNL_beginMarker (name : string) : noNL name = true -> noNL (beginMarker name) = true.
Proof. intros H. unfold beginMarker. rewrite StringsFacts.noNL_app, H. reflexivity. Qed.

Lemma noNL_endMarker (name : string) : noNL name = true -> noNL (endMarker name) = true.
Proof. intros H. unfold endMarker. rewrite StringsFacts.noNL_app, H. reflexivity. Qed.

Lemma beginMarker_not_empty (name : string) : EmptyString <> beginMarker name.
Proof. unfold beginMarker. intros H. inversion H. Qed.

Lemma endMarker_not_empty (name : string) : EmptyString <> endMarker name.
Proof. unfold endMarker. intros H. inversion H. Qed.

(** The pieces of a terminated text are its lines followed by one empty
    piece, and text appended to it starts on a line of its own. *)
Lemma Split_terminated (s : string) :
  terminated s ->
  exists L, Split s = L ++ [EmptyString] /\
            (forall X, Split (s +:+ X) = L ++ Split X) /\
            s = match L with [] => EmptyString | _ :: _ => Join L +:+ LF end.
Proof.
  intros [-> | H].
  - exists []. repeat split.
  - destruct (StringsFacts.HasSuffix_inv s H) as [t ->].
    exists (Split t). split; [|split].
    + unfold LF. now rewrite StringsFacts.Split_app_nl.
    + intros X. unfold LF. rewrite StringsFacts.app_assoc.
      change (String nl EmptyString +:+ X) with (String nl X).
      apply StringsFacts.Split_app_nl.
    + rewrite StringsFacts.Join_Split.
      destruct (Split t) eqn:Ht; [now apply StringsFacts.Split_nonempty in Ht | reflexivity].
Qed.

Lemma terminated_keptBefore (P : list string) : terminated (keptBefore P).
Proof.
  destruct P as [|x P]; [now left |]. right. unfold keptBefore.
  destruct (HasSuffix (Join (x :: P))) eqn:H; [exact H | apply StringsFacts.HasSuffix_app_LF].
Qed.

Lemma terminated_header : terminated cmDataHeader.
Proof. now right. Qed.

(** The pieces of what is kept after the block are among the lines after it. *)
Lemma Split_keptAfter (S : list string) :
  Forall (fun l => noNL l = true) S ->
  forall x, x ∈ Split (keptAfter S) -> x = EmptyString \/ x ∈ S.
Proof.
  intros HS x Hx. destruct S as [|y S]; cbn [keptAfter] in Hx.
  - left. apply list_elem_of_singleton in Hx. exact Hx.
  - right. destruct (StringsFacts.Split_TrimRight (Join (y :: S))) as [r Hr].
    rewrite StringsFacts.Split_Join in Hr by (discriminate || assumption).
    rewrite Hr. apply elem_of_app. now left.
Qed.

Lemma cmData_app (name dataYaml post : string) :
  cmData name dataYaml +:+ post
  = beginMarker name +:+ String nl (dataYaml +:+ (endMarker name +:+ String nl post)).
Proof.
  unfold cmData, LF. rewrite !StringsFacts.app_assoc. reflexivity.
Qed.

(** The lines of a document that holds the block of [name] with the
    fragment [dataYaml], after a terminated text. *)
Lemma Split_with_block (name dataYaml pre post : string) (L F : list string) :
  noNL name = true ->
  (forall X, Split (pre +:+ X) = L ++ Split X) ->
  (forall X, Split (dataYaml +:+ X) = F ++ Split X) ->
  Split (pre +:+ cmData name dataYaml +:+ post)
  = L ++ beginMarker name :: F ++ endMarker name :: Split post.
Proof.
  intros Hn HL HF. rewrite cmData_app, HL, StringsFacts.Split_app_nl.
  rewrite (StringsFacts.Split_noNL _ (noNL_beginMarker name Hn)).
  rewrite HF, StringsFacts.Split_app_nl.
  rewrite (StringsFacts.Split_noNL _ (noNL_endMarker name Hn)).
  reflexivity.
Qed.

Lemma cmData_LF (name dataYaml : string) :
  cmData name dataYaml
  = (beginMarker name +:+ String nl (dataYaml +:+ endMarker name)) +:+ LF.
Proof.
  unfold cmData, LF.
  rewrite !StringsFacts.app_assoc, !StringsFacts.app_String, ?StringsFacts.app_assoc.
  reflexivity.
Qed.

(** The block as the add path compares it. *)
Lemma Join_block (name dataYaml : string) (F : list string) :
  Split dataYaml = F ++ [EmptyString] ->
  Join (beginMarker name :: F ++ [endMarker name]) = TrimSuffix (cmData name dataYaml).
Proof.
  intros HF.
  assert (Hf : Join (F ++ [endMarker name]) = dataYaml +:+ endMarker name).
  { rewrite <- (StringsFacts.Join_Split dataYaml), HF. destruct F as [|x F].
    - reflexivity.
    - rewrite !StringsFacts.Join_app by discriminate.
      cbn [Join]. now rewrite StringsFacts.app_assoc. }
  rewrite StringsFacts.Join_cons by (destruct F; discriminate).
  rewrite Hf, cmData_LF. now rewrite StringsFacts.TrimSuffix_app_LF.
Qed.

(** Once the block is in place, the add path changes nothing. *)
Lemma upsert_settled (name dataYaml pre post : string) :
  noNL name = true ->
  terminated pre -> terminated dataYaml ->
  Forall (fun l => l <> beginMarker name) (Split dataYaml) ->
  Forall (fun l => l <> beginMarker name) (Split post) ->
  Forall (fun l => l <> endMarker name) (Split post) ->
  upsert (pre +:+ cmData name dataYaml +:+ post) name dataYaml = Done None.
Proof.
  intros Hn Hpre Hf HfB HpB HpE.
  destruct (Split_terminated pre Hpre) as (L & _ & HL & _).
  destruct (Split_terminated dataYaml Hf) as (F & HF & HFX & _).
  rewrite (upsert_shape name L F (Split post)); try assumption.
  - rewrite (Join_block name dataYaml F HF), String.eqb_refl. reflexivity.
  - rewrite HF in HfB. now apply Forall_app in HfB as [? _].
  - now apply Split_with_block.
Qed.

(** A block found with the begin marker first gives the lines their shape. *)
Lemma found_shape (name : string) (lines : list string) (b e : Z) :
  findBlock name lines = (true, b, e) -> b <= e ->
  exists P M S,
    lines = P ++ beginMarker name :: M ++ endMarker name :: S /\
    Forall (fun l => l <> beginMarker name) M /\
    Forall (fun l => l <> beginMarker name) S /\
    Forall (fun l => l <> endMarker name) S.
Proof.
  intros Hf Hbe.
  destruct (findBlock_spec name lines true b e Hf) as [Hb He].
  destruct He as [(? & _) | (_ & ne & -> & [HneE HlastE] & i & Hi & HiB)]; [discriminate |].
  destruct Hb as [(_ & Hb) | (nb & -> & [HnbB HlastB])]; [now apply Hb in HiB |].
  assert (nb <> ne).
  { intros ->. apply (begin_neq_end name). congruence. }
  assert (Hlt : (nb < ne)%nat) by lia.
  set (R := drop (S nb) lines). set (k := (ne - S nb)%nat).
  assert (HR : R !! k = Some (endMarker name)).
  { unfold R, k. rewrite lookup_drop. now replace (S nb + (ne - S nb))%nat with ne by lia. }
  exists (take nb lines), (take k R), (drop (S k) R). split; [|split; [|split]].
  - rewrite (take_drop_middle R k _ HR). fold R.
    symmetry. now apply take_drop_middle.
  - apply Forall_lookup_2. intros j x Hj. apply lookup_take_Some in Hj as [Hj _].
    unfold R in Hj. rewrite lookup_drop in Hj. intros ->.
    apply (HlastB (S nb + j)%nat); [lia | assumption].
  - apply Forall_lookup_2. intros j x Hj. unfold R in Hj. rewrite !lookup_drop in Hj.
    intros ->. apply (HlastB (S nb + (S k + j))%nat); [lia | assumption].
  - apply Forall_lookup_2. intros j x Hj. unfold R in Hj. rewrite !lookup_drop in Hj.
    intros ->. apply (HlastE (S nb + (S k + j))%nat); [unfold k; lia | assumption].
Qed.

Lemma markers_not_in_keptAfter (name : string) (S : list string) :
  Forall (fun l => noNL l = true) S ->
  Forall (fun l => l <> beginMarker name) S ->
  Forall (fun l => l <> endMarker name) S ->
  Forall (fun l => l <> beginMarker name) (Split (keptAfter S)) /\
  Forall (fun l => l <> endMarker name) (Split (keptAfter S)).
Proof.
  intros Hnl HB HE. rewrite !Forall_forall in *.
  split; intros x Hx; destruct (Split_keptAfter S) with (x := x) as [-> | Hin];
    try assumption; try (now apply Forall_forall);
    try apply beginMarker_not_empty; try apply endMarker_not_empty;
    [now apply HB | now apply HE].
Qed.

(** ** The merge engine (claims C1, C2 and C6; X18 and X19) *)

(** X18.  Idempotence on documents made of whole lines.  Take a key without
    a newline, a fragment that is empty or ends with a newline and has no
    line equal to the begin marker of the key, and a document in which the
    locator either finds the block with the begin index at most the end
    index, or finds none and the document is the placeholder, is empty, or
    ends with a newline.  Then the upsert returns a document, and upserting
    it again with the same key and fragment returns the same document. *)
Theorem upsertBlock_idempotent (doc name dataYaml : string) :
  noNL name = true ->
  terminated dataYaml ->
  Forall (fun l => l <> beginMarker name) (Split dataYaml) ->
  (match findBlock name (Split doc) with
   | (true, b, e) => b <= e
   | (false, _, _) => TrimSpace doc = "{}" \/ terminated doc
   end) ->
  exists d1, upsertBlock doc name dataYaml = Done d1 /\
             upsertBlock d1 name dataYaml = Done d1.
Proof.
  intros Hn Hf HfB Hdoc.
  destruct (findBlock name (Split doc)) as [[[|] b] e] eqn:Hfind.
  - (* a block is there *)
    destruct (found_shape name (Split doc) b e Hfind Hdoc) as (P & M & S & Hs & HM & HSB & HSE).
    unfold upsertBlock at 1. rewrite (upsert_shape name P M S doc dataYaml HM HSB HSE Hs).
    cbn [obind]. destruct (String.eqb _ _) eqn:Heq.
    + exists doc. split; [reflexivity |]. unfold upsertBlock.
      rewrite (upsert_shape name P M S doc dataYaml HM HSB HSE Hs), Heq. reflexivity.
    + eexists. split; [reflexivity |]. unfold upsertBlock.
      assert (Hnl : Forall (fun l => noNL l = true) S).
      { pose proof (StringsFacts.Split_lines_noNL doc) as H. rewrite Hs in H.
        apply Forall_app in H as [_ H]. inversion H as [|? ? _ H']; subst.
        apply Forall_app in H' as [_ H']. now inversion H'. }
      destruct (markers_not_in_keptAfter name S Hnl HSB HSE) as [HkB HkE].
      rewrite upsert_settled; try assumption; [reflexivity | apply terminated_keptBefore].
  - (* no block is there *)
    set (d := if String.eqb (TrimSpace doc) "{}" then cmDataHeader else doc).
    assert (Hd : terminated d).
    { unfold d. destruct (String.eqb_spec (TrimSpace doc) "{}") as [_ | Hne].
      - apply terminated_header.
      - destruct Hdoc as [Hp | Ht]; [contradiction | exact Ht]. }
    assert (H1 : upsertBlock doc name dataYaml = Done (d +:+ cmData name dataYaml)).
    { unfold upsertBlock, upsert. rewrite Hfind. reflexivity. }
    exists (d +:+ cmData name dataYaml). split; [exact H1 |].
    unfold upsertBlock.
    rewrite <- (StringsFacts.app_empty_r (cmData name dataYaml)) at 1.
    rewrite upsert_settled; try assumption; [reflexivity | |].
    + repeat constructor. apply beginMarker_not_empty.
    + repeat constructor. apply endMarker_not_empty.
Qed.

Lemma upsertBlock_idempotent_witness :
  exists d1, upsertBlock ("spec:" +:+ LF) "a@ns" ("a: b" +:+ LF) = Done d1 /\
             upsertBlock d1 "a@ns" ("a: b" +:+ LF) = Done d1.
Proof.
  apply upsertBlock_idempotent.
  - reflexivity.
  - now right.
  - repeat constructor; discriminate.
  - vm_compute. right. right. reflexivity.
Defined.

(** C1: the code at the failing inputs.  The append branch writes the begin
    marker right after the last byte of the document.  On a document whose
    last line is not ended by a newline the marker is glued to that line, the
    block is not found again, and a second upsert appends it once more.  The
    controller writes such documents itself: replacing the block of "a@ns" in
    a document that also holds the block of "b@ns" strips the final newline;
    the upsert of "c@ns" that follows is then not idempotent, and the block
    of "b@ns" is not found any more. *)
Theorem upsertBlock_append_glues_marker :
  (obind (upsertBlock "spec:" "a@ns" ("a: b" +:+ LF))
         (fun d => upsertBlock d "a@ns" ("a: b" +:+ LF))
   <> upsertBlock "spec:" "a@ns" ("a: b" +:+ LF)) /\
  (let doc0 := cmDataHeader +:+ cmData "a@ns" ("  - a" +:+ LF)
                 +:+ cmData "b@ns" ("  - b" +:+ LF) in
   exists d1 d2,
     upsertBlock doc0 "a@ns" ("  - x" +:+ LF) = Done d1 /\
     HasSuffix d1 = false /\
     findBlock "b@ns" (Split d1) = (true, 6, 8) /\
     upsertBlock d1 "c@ns" ("  - c" +:+ LF) = Done d2 /\
     upsertBlock d2 "c@ns" ("  - c" +:+ LF) = Done (d2 +:+ cmData "c@ns" ("  - c" +:+ LF)) /\
     findBlock "c@ns" (Split d2) = (false, -1, -1) /\
     findBlock "b@ns" (Split d2) = (false, 6, -1)).
Proof.
  split; [vm_compute; discriminate |].
  cbv zeta. do 2 eexists.
  split; [vm_compute; reflexivity |].
  repeat split; vm_compute; reflexivity.
Qed.

Lemma app_LF_inj (a b : string) : a +:+ LF = b +:+ LF -> a = b.
Proof.
  intros H. rewrite <- (StringsFacts.TrimSuffix_app_LF a), H.
  apply StringsFacts.TrimSuffix_app_LF.
Qed.

(** What is kept of the lines of a text that is empty or ends with exactly
    one newline is that text. *)
Lemma keptBefore_lines (d : string) (L : list string) :
  d = match L with [] => EmptyString | _ :: _ => Join L +:+ LF end ->
  d = EmptyString \/ (exists g, d = g +:+ LF /\ HasSuffix g = false) ->
  keptBefore L = d.
Proof.
  intros HL Hd. destruct L as [|x L]; [now subst |].
  unfold keptBefore. destruct Hd as [-> | (g & -> & Hg)].
  - destruct (StringsFacts.app_LF_cons (Join (x :: L))) as (c & t & E).
    rewrite E in HL. discriminate.
  - apply app_LF_inj in HL. subst g. now rewrite Hg.
Qed.

(** X19.  Round trip on documents made of whole lines.  Take a key without
    a newline, a fragment that is empty or ends with a newline and has no
    line equal to the begin marker of the key, and a document in which the
    locator finds no block of the key and which is the placeholder, is
    empty, or ends with exactly one newline.  Then removing the block from
    the upserted document finds it and gives back the document, or the
    header preamble when the document is the placeholder. *)
Theorem removeBlock_upsertBlock (doc name dataYaml : string) :
  noNL name = true ->
  terminated dataYaml ->
  Forall (fun l => l <> beginMarker name) (Split dataYaml) ->
  fst (fst (findBlock name (Split doc))) = false ->
  TrimSpace doc = "{}" \/ doc = EmptyString \/
    (exists g, doc = g +:+ LF /\ HasSuffix g = false) ->
  exists d1, upsertBlock doc name dataYaml = Done d1 /\
    removeBlock d1 name =
      Done (Some (if String.eqb (TrimSpace doc) "{}" then cmDataHeader else doc)).
Proof.
  intros Hn Hf HfB Hfind Hdoc.
  set (d := if String.eqb (TrimSpace doc) "{}" then cmDataHeader else doc).
  assert (Hd : d = EmptyString \/ (exists g, d = g +:+ LF /\ HasSuffix g = false)).
  { unfold d. destruct (String.eqb_spec (TrimSpace doc) "{}") as [_ | Hne].
    - right. exists (TrimSuffix cmDataHeader). split; reflexivity.
    - destruct Hdoc as [Hp | Hdoc]; [contradiction | exact Hdoc]. }
  assert (Ht : terminated d).
  { destruct Hd as [-> | (g & -> & _)]; [now left | right].
    apply StringsFacts.HasSuffix_app_LF. }
  exists (d +:+ cmData name dataYaml). split.
  - unfold upsertBlock, upsert.
    destruct (findBlock name (Split doc)) as [[fd b] e]. cbn in Hfind. subst fd.
    reflexivity.
  - destruct (Split_terminated d Ht) as (L & _ & HL & HdL).
    destruct (Split_terminated dataYaml Hf) as (F & HF & HFX & _).
    rewrite (removeBlock_shape name L F [EmptyString]).
    + cbn [keptAfter Join TrimRight]. rewrite StringsFacts.app_empty_r.
      now rewrite (keptBefore_lines d L HdL Hd).
    + rewrite HF in HfB. now apply Forall_app in HfB as [? _].
    + repeat constructor. apply beginMarker_not_empty.
    + repeat constructor. apply endMarker_not_empty.
    + rewrite <- (StringsFacts.app_empty_r (cmData name dataYaml)).
      now apply Split_with_block.
Qed.

Lemma removeBlock_upsertBlock_witness :
  exists d1, upsertBlock ("spec:" +:+ LF) "a@ns" ("a: b" +:+ LF) = Done d1 /\
    removeBlock d1 "a@ns" =
      Done (Some (if String.eqb (TrimSpace ("spec:" +:+ LF)) "{}"
                  then cmDataHeader else "spec:" +:+ LF)).
Proof.
  apply removeBlock_upsertBlock.
  - reflexivity.
  - now right.
  - repeat constructor; discriminate.
  - reflexivity.
  - right. right. exists "spec:". split; reflexivity.
Defined.

(** C2: the code at the failing inputs.  On a document whose last line is
    not ended by a newline, the block the upsert appends cannot be removed
    again: its begin marker is glued to that line, the removal finds no
    block, and the document is not restored.  This holds for the document
    "spec:" and for the document the controller itself writes when it
    replaces the block of "a@ns" before the block of "b@ns". *)
Theorem removeBlock_after_append_not_found :
  (TrimSpace "spec:" <> "{}" /\
   obind (upsertBlock "spec:" "a@ns" ("a: b" +:+ LF)) (fun d => removeBlock d "a@ns")
     = Done None) /\
  (let doc0 := cmDataHeader +:+ cmData "a@ns" ("  - a" +:+ LF)
                 +:+ cmData "b@ns" ("  - b" +:+ LF) in
   exists d1,
     upsertBlock doc0 "a@ns" ("  - x" +:+ LF) = Done d1 /\
     TrimSpace d1 <> "{}" /\
     fst (fst (findBlock "c@ns" (Split d1))) = false /\
     obind (upsertBlock d1 "c@ns" ("  - c" +:+ LF)) (fun d => removeBlock d "c@ns")
       = Done None).
Proof.
  split; [split; vm_compute; (reflexivity || discriminate) |].
  cbv zeta. eexists.
  split; [vm_compute; reflexivity |].
  repeat split; vm_compute; (reflexivity || discriminate).
Qed.

(** C6.  Upserting the block of "a@ns" with the fragment "a: b\n" into the
    placeholder document gives the header preamble followed by the block. *)
Theorem upsertBlock_placeholder_scenario :
  upsertBlock "{}" "a@ns" ("a: b" +:+ LF) =
  Done ("kind: CustomResourceStateMetrics" +:+ LF +:+
        "spec:" +:+ LF +:+
        "  resources:" +:+ LF +:+
        "# BEGIN CustomResourceStateMetrics a@ns" +:+ LF +:+
        "a: b" +:+ LF +:+
        "# END CustomResourceStateMetrics a@ns" +:+ LF).
Proof. vm_compute. reflexivity. Qed.

(** ** The resource encoder (claim C5; X20) *)

Lemma SplitN2_cases (y : string) :
  (noNL y = true /\ SplitN2 y = [y]) \/
  (exists h r, noNL h = true /\ y = h +:+ String nl r /\ SplitN2 y = [h; r]).
Proof.
  induction y as [|c y IH].
  - now left.
  - simpl. destruct (isNL c) eqn:Hc.
    + right. exists EmptyString, y. rewrite (StringsFacts.isNL_eq c Hc). now repeat split.
    + destruct IH as [[Hn ->] | (h & r & Hh & -> & ->)].
      * left. now rewrite Hn.
      * right. exists (String c h), r. simpl. rewrite Hc, Hh. now repeat split.
Qed.

Lemma stripFirstLine_cases (y : string) :
  (noNL y = true /\ stripFirstLine y = y) \/
  (exists h, noNL h = true /\ y = h +:+ String nl (stripFirstLine y)).
Proof.
  unfold stripFirstLine.
  destruct (SplitN2_cases y) as [[Hn ->] | (h & r & Hh & Hy & ->)].
  - now left.
  - right. exists h. now split.
Qed.

(** X20.  What the encoder does with the serialized text.  When the
    resources are marshalled and the serializer returns [y]: if [y] holds no
    newline the encoder returns [y] as it is; otherwise it returns what
    follows the first newline of [y], that is [y] without its first line.
    The output for no resources at all, [resources: []] and a newline, holds
    one: the encoder returns the empty string for it. *)
Theorem decodeData_strips_first_line
    (RawExtension JSONValue : Type)
    (MarshalJSON : RawExtension -> error + string)
    (jsonUnmarshal : string -> error + JSONValue)
    (yamlMarshal : list JSONValue -> error + string)
    (resources : list RawExtension) (data : list JSONValue) (y : string) :
  decodeResources MarshalJSON jsonUnmarshal resources [] = inr data ->
  yamlMarshal data = inr y ->
  exists r, decodeData MarshalJSON jsonUnmarshal yamlMarshal resources = inr r /\
    (noNL y = true -> r = y) /\
    (noNL y = false -> exists h, noNL h = true /\ y = h +:+ String nl r) /\
    (y = "resources: []" +:+ LF -> r = EmptyString).
Proof.
  intros Hd Hy. unfold decodeData. rewrite Hd, Hy.
  exists (stripFirstLine y). split; [reflexivity |].
  destruct (stripFirstLine_cases y) as [[Hn Hs] | (h & Hh & Hs)].
  - split; [intros _; exact Hs | split].
    + intros Hf. rewrite Hn in Hf. discriminate.
    + intros ->. discriminate.
  - split; [|split].
    + intros Hn. rewrite Hs, StringsFacts.noNL_app in Hn. simpl in Hn.
      rewrite andb_false_r in Hn. discriminate.
    + intros _. now exists h.
    + intros ->. reflexivity.
Qed.

Lemma decodeData_strips_first_line_witness :
  exists r, decodeData scalarJSON scalarJSON scalarYAML ["a"; "b"] = inr r /\
    (noNL ("resources:" +:+ LF +:+ "    - a" +:+ LF +:+ "    - b" +:+ LF) = true ->
       r = "resources:" +:+ LF +:+ "    - a" +:+ LF +:+ "    - b" +:+ LF) /\
    (noNL ("resources:" +:+ LF +:+ "    - a" +:+ LF +:+ "    - b" +:+ LF) = false ->
       exists h, noNL h = true /\
         "resources:" +:+ LF +:+ "    - a" +:+ LF +:+ "    - b" +:+ LF = h +:+ String nl r) /\
    ("resources:" +:+ LF +:+ "    - a" +:+ LF +:+ "    - b" +:+ LF = "resources: []" +:+ LF ->
       r = EmptyString).
Proof.
  apply (decodeData_strips_first_line string string scalarJSON scalarJSON scalarYAML
           ["a"; "b"] ["a"; "b"]); reflexivity.
Defined.

(** C5: the code at the failing input.  For the empty resource list the
    serialized output is the one line [resources: []] ended by its newline.
    [SplitN] cuts it in two pieces at that newline, so the test for "only
    one line" does not hold and the encoder returns the empty string, not
    the output as it is. *)
Theorem decodeData_empty_list :
  scalarYAML [] = inr ("resources: []" +:+ LF) /\
  SplitN2 ("resources: []" +:+ LF) = ["resources: []"; EmptyString] /\
  stripFirstLine ("resources: []" +:+ LF) = EmptyString /\
  decodeData scalarJSON scalarJSON scalarYAML [] = inr EmptyString /\
  decodeData scalarJSON scalarJSON scalarYAML [] <> scalarYAML [].
Proof. repeat split; vm_compute; (reflexivity || discriminate). Qed.

(** ** The deletion path (claims C7 and C8) *)

Lemma SetStatusCondition_In (conditions : list Condition) (c : Condition) :
  In c (SetStatusCondition conditions c).
Proof.
  induction conditions as [|x conditions IH]; simpl; [now left |].
  destruct (String.eqb _ _); [now left | now right].
Qed.

Lemma removeBlock_not_found (data name : string) :
  fst (fst (findBlock name (Split data))) = false -> removeBlock data name = Done None.
Proof.
  intros H. unfold removeBlock.
  destruct (findBlock name (Split data)) as [[fd b] e]. cbn in H. now subst.
Qed.

(** C7, as amended.  When the ConfigMap is fetched and holds no block of the
    instance, the deletion path issues no ConfigMap write and leaves the
    ConfigMaps as they are, sets Ready to false with reason Removing and the
    message that the resources do not exist, and returns no error, unless the
    status update fails: then that failure is returned. *)
Theorem delete_without_block (R : Type) (instance : CustomResourceStateMetrics R)
    (instanceNamespacedName : string) (w : World R) (data : option (gmap string string)) :
  faults w (calls w) = None ->
  configMaps w !! (targetNamespace instance, CM_Name (Spec_ConfigMap instance)) = Some data ->
  fst (fst (findBlock instanceNamespacedName
              (Split (dataGet data (CM_Key (Spec_ConfigMap instance)))))) = false ->
  exists instance' e w',
    deleteCustomResourceStateMetric instance instanceNamespacedName w
      = Done ((instance', e), w') /\
    configMaps w' = configMaps w /\
    List.filter isConfigMapWrite (trace w') = List.filter isConfigMapWrite (trace w) /\
    In {| Type_ := conditionTypeReady; Status := ConditionFalse; Reason := reasonRemoving;
          Message := "Resources don't exist in the ConfigMap." |}
       (Status_Conditions instance') /\
    e = match faults w (S (calls w)) with
        | None => None
        | Some err =>
            Some (Errorf
              "failed to update status for the CustomResourceStateMetrics instance %s: %w" err)
        end.
Proof.
  intros Hfault Hcm Hfind.
  unfold deleteCustomResourceStateMetric, GetConfigMap, finishWith, UpdateStatus,
    bind, nextFault, getConfigMaps, getInstances, putInstances, record, ret, lift.
  cbn. rewrite Hfault. cbn. rewrite Hcm. cbn.
  rewrite (removeBlock_not_found _ _ Hfind). cbn.
  destruct (faults w (S (calls w))) as [err|]; cbn;
    do 3 eexists; (split; [reflexivity |]); cbn;
    (split; [reflexivity |]);
    (split; [rewrite !List.filter_app; cbn; now rewrite !app_nil_r |]);
    (split; [apply SetStatusCondition_In | reflexivity]).
Qed.

Lemma delete_without_block_witness :
  exists instance' e w',
    deleteCustomResourceStateMetric (exampleInstance (Some 1) [FinalizerName]) "a@ns"
      (exampleWorld (exampleInstance (Some 1) [FinalizerName]) cmDataHeader (fun _ => None))
      = Done ((instance', e), w') /\
    configMaps w' = configMaps
      (exampleWorld (exampleInstance (Some 1) [FinalizerName]) cmDataHeader (fun _ => None)) /\
    List.filter isConfigMapWrite (trace w') = [] /\
    In {| Type_ := conditionTypeReady; Status := ConditionFalse; Reason := reasonRemoving;
          Message := "Resources don't exist in the ConfigMap." |}
       (Status_Conditions instance') /\
    e = None.
Proof.
  apply (delete_without_block string (exampleInstance (Some 1) [FinalizerName]) "a@ns"
           (exampleWorld (exampleInstance (Some 1) [FinalizerName]) cmDataHeader
              (fun _ => None))
           (Some {[ "config.yaml" := cmDataHeader ]})).
  - reflexivity.
  - vm_compute. reflexivity.
  - vm_compute. reflexivity.
Defined.

(** C7 as stated fails when the status update fails: the block is absent,
    no ConfigMap write is issued, and the deletion path returns an error. *)
Lemma delete_without_block_counterexample :
  fst (fst (findBlock "a@ns" (Split cmDataHeader))) = false /\
  snd <$> valueOf
    (deleteCustomResourceStateMetric (exampleInstance (Some 1) [FinalizerName]) "a@ns"
       (exampleWorld (exampleInstance (Some 1) [FinalizerName]) cmDataHeader
          (failAt 1 (ErrOther "etcdserver: request timed out"))))
  = Some (Some (Errorf
      "failed to update status for the CustomResourceStateMetrics instance %s: %w"
      (ErrOther "etcdserver: request timed out"))).
Proof. split; vm_compute; reflexivity. Qed.

(** C8: what the code does when the ConfigMap cannot be fetched for a
    reason other than its absence.  The ConfigMap holds the block of the
    instance and the fetch is refused; [Reconcile] reports no error, removes
    the finalizer, and the block stays in the ConfigMap. *)
Theorem reconcile_deleting_fetch_failure :
  let instance := exampleInstance (Some 1) [FinalizerName] in
  let doc := cmDataHeader +:+ cmData "a@ns" ("    - a: b" +:+ LF) in
  let w := exampleWorld instance doc (failAt 1 (ErrOther "connection refused")) in
  let run := Reconcile scalarJSON scalarJSON scalarYAML "ns" "a" w in
  IsNotFound (ErrOther "connection refused") = false /\
  valueOf run = Some None /\
  (w' ← stateOf run; Finalizers <$> instances w' !! ("ns", "a")) = Some [] /\
  (w' ← stateOf run; configMaps w' !! ("ns", "cm")) = Some (Some {[ "config.yaml" := doc ]}).
Proof. repeat split; vm_compute; reflexivity. Qed.

(** ** The Updating transition (claim C9) *)

Section Keeps.

Context {R : Type}.

Lemma keeps_ret {A} (a : A) : keeps (ret (RawExtension := R) a).
Proof. intros w a' w' [= <- <-]. now split. Qed.

Lemma keeps_bind {A B} (m : M R A) (k : A -> M R B) :
  keeps m -> (forall a, keeps (k a)) -> keeps (bind m k).
Proof.
  intros Hm Hk w b w' H. unfold bind in H.
  destruct (m w) as [[a w1]|] eqn:E; [|discriminate].
  destruct (Hm w a w1 E) as [H1 H2]. destruct (Hk a w1 b w' H) as [H3 H4].
  split; congruence.
Qed.

Lemma keeps_lift {A} (o : outcome A) : keeps (lift (RawExtension := R) o).
Proof. intros w a w' H. unfold lift in H. destruct o; inversion H; subst. now split. Qed.

Lemma keeps_record (a : action) : isInstanceUpdate a = false -> keeps (record (RawExtension := R) a).
Proof.
  intros Ha w u w' [= <- <-]. split; [reflexivity |].
  unfold instanceUpdates. cbn. rewrite List.filter_app. cbn. rewrite Ha.
  apply app_nil_r.
Qed.

Lemma keeps_nextFault : keeps (nextFault (RawExtension := R)).
Proof. intros w a w' [= <- <-]. now split. Qed.

Lemma keeps_getConfigMaps : keeps (getConfigMaps (RawExtension := R)).
Proof. intros w a w' [= <- <-]. now split. Qed.

Lemma keeps_putConfigMaps m : keeps (putConfigMaps (RawExtension := R) m).
Proof. intros w a w' [= <- <-]. now split. Qed.

(** Writing the status of a stored instance keeps its finalizers. *)
Lemma keeps_status_write (i : CustomResourceStateMetrics R) :
  keeps (bind getInstances (fun m =>
           bind (putInstances
                   (alter (fun s : CustomResourceStateMetrics R =>
                             withConditions s (Status_Conditions i))
                      (Namespace i, Name i) m))
             (fun _ => ret (None : option error)))).
Proof.
  intros w a w' [= <- <-]. split; [|reflexivity].
  unfold finalizersOf. cbn. apply map_eq. intros key.
  rewrite !lookup_fmap, lookup_alter. case_decide; [subst key |]; [|reflexivity].
  now destruct (instances w !! (Namespace i, Name i)).
Qed.

End Keeps.

Create HintDb keeps_db.
#[local] Hint Resolve keeps_ret keeps_lift keeps_nextFault keeps_getConfigMaps
  keeps_putConfigMaps keeps_status_write : keeps_db.

Ltac keeps_step :=
  first
    [ solve [eauto with keeps_db]
    | lazymatch goal with
      | |- keeps (bind _ _) => apply keeps_bind; [|intros ?]
      | |- keeps (record _) => apply keeps_record; reflexivity
      | |- keeps (match ?x with _ => _ end) => destruct x
      end ].

Section KeepsPaths.

Context {R J : Type}.
Variable MarshalJSON : R -> error + string.
Variable jsonUnmarshal : string -> error + J.
Variable yamlMarshal : list J -> error + string.

Lemma keeps_GetConfigMap ns name : keeps (GetConfigMap (RawExtension := R) ns name).
Proof. unfold GetConfigMap. repeat keeps_step. Qed.

Lemma keeps_CreateConfigMap ns name data :
  keeps (CreateConfigMap (RawExtension := R) ns name data).
Proof. unfold CreateConfigMap. repeat keeps_step. Qed.

Lemma keeps_UpdateConfigMap ns name data :
  keeps (UpdateConfigMap (RawExtension := R) ns name data).
Proof. unfold UpdateConfigMap. repeat keeps_step. Qed.

Lemma keeps_UpdateStatus (i : CustomResourceStateMetrics R) : keeps (UpdateStatus i).
Proof. unfold UpdateStatus. repeat keeps_step. Qed.

Hint Resolve keeps_GetConfigMap keeps_CreateConfigMap keeps_UpdateConfigMap
  keeps_UpdateStatus : keeps_db.

Lemma keeps_finishWith (i : CustomResourceStateMetrics R) status reason message :
  keeps (finishWith i status reason message).
Proof. unfold finishWith. repeat keeps_step. Qed.

Lemma keeps_failWith (i : CustomResourceStateMetrics R) reason f1 f2 f3 f4 err :
  keeps (failWith i reason f1 f2 f3 f4 err).
Proof. unfold failWith. repeat keeps_step. Qed.

Hint Resolve keeps_finishWith keeps_failWith : keeps_db.

Lemma keeps_add (i : CustomResourceStateMetrics R) (nn : string) :
  keeps (addCustomResourceStateMetric MarshalJSON jsonUnmarshal yamlMarshal i nn).
Proof. unfold addCustomResourceStateMetric. repeat keeps_step. Qed.

Hint Resolve keeps_add : keeps_db.

(** A failed branch returns an error. *)
Lemma failWith_returns_error (i : CustomResourceStateMetrics R) reason f1 f2 f3 f4 err
    (w : World R) (r : option error) (w' : World R) :
  failWith i reason f1 f2 f3 f4 err w = Done (r, w') -> r <> None.
Proof.
  unfold failWith, UpdateStatus, bind, record, nextFault, getInstances, putInstances, ret.
  cbn. destruct (faults w (calls w)); intros [= <- _]; discriminate.
Qed.

(** The add path returns the instance it was given, but for its status. *)
Lemma add_returns_instance (i : CustomResourceStateMetrics R) (nn : string)
    (w : World R) (i' : CustomResourceStateMetrics R) (e : option error) (w' : World R) :
  addCustomResourceStateMetric MarshalJSON jsonUnmarshal yamlMarshal i nn w
    = Done ((i', e), w') ->
  Finalizers i' = Finalizers i.
Proof.
  unfold addCustomResourceStateMetric, finishWith, GetConfigMap, CreateConfigMap,
    UpdateConfigMap, UpdateStatus, bind, record, nextFault, getConfigMaps, putConfigMaps,
    getInstances, putInstances, ret, lift.
  cbn. intros H.
  repeat match type of H with
         | context [match ?x with _ => _ end] => destruct x; cbn in H
         end;
    try discriminate; injection H as <- _ _; reflexivity.
Qed.

Lemma keeps_reconcileUpdating (i : CustomResourceStateMetrics R) (nn : string) :
  keeps (reconcileUpdating MarshalJSON jsonUnmarshal yamlMarshal i nn).
Proof. unfold reconcileUpdating. repeat keeps_step. Qed.

(** C9.  For a stored instance that is fetched, is not being deleted and
    is not in the Creating state (its generation is not 1, or it has the
    finalizer), [Reconcile] is the Updating branch, which records its
    event and runs the add path; whatever the run returns, the finalizers
    of the stored instances are as before and no instance update was
    issued. *)
Theorem reconcile_updating_keeps_finalizers (namespace name : string)
    (w : World R) (instance : CustomResourceStateMetrics R) :
  faults w (calls w) = None ->
  instances w !! (namespace, name) = Some instance ->
  DeletionTimestamp instance = None ->
  Generation instance <> 1 \/ ContainsFinalizer instance FinalizerName = true ->
  Reconcile MarshalJSON jsonUnmarshal yamlMarshal namespace name w
    = reconcileUpdating MarshalJSON jsonUnmarshal yamlMarshal instance
        (NamespacedName (Name instance) (Namespace instance)) (afterCall w) /\
  (forall r w',
     Reconcile MarshalJSON jsonUnmarshal yamlMarshal namespace name w = Done (r, w') ->
     exists instance' e w1,
       addCustomResourceStateMetric MarshalJSON jsonUnmarshal yamlMarshal instance
         (NamespacedName (Name instance) (Namespace instance))
         (withTrace (afterCall w)
            (trace w ++ [Event "Normal" reasonAdding "Updating resources in the ConfigMap."]))
       = Done ((instance', e), w1) /\
       Finalizers instance' = Finalizers instance /\
       (e = None -> r = None /\ w' = w1) /\
       (e <> None -> r <> None)) /\
  forall r w',
    Reconcile MarshalJSON jsonUnmarshal yamlMarshal namespace name w = Done (r, w') ->
    finalizersOf w' = finalizersOf w /\
    instanceUpdates w' = instanceUpdates w /\
    Finalizers <$> instances w' !! (namespace, name) = Some (Finalizers instance).
Proof.
  intros Hfault Hget Hdel Hstate.
  assert (Heq : Reconcile MarshalJSON jsonUnmarshal yamlMarshal namespace name w
                = reconcileUpdating MarshalJSON jsonUnmarshal yamlMarshal instance
                    (NamespacedName (Name instance) (Namespace instance)) (afterCall w)).
  { unfold Reconcile, GetInstance, bind, nextFault, getInstances, ret.
    cbv beta. rewrite Hfault. cbv beta iota. cbn [instances]. rewrite Hget.
    cbv beta iota. rewrite Hdel. cbn [IsZero negb].
    replace ((Generation instance =? 1) && negb (ContainsFinalizer instance FinalizerName))
      with false; [reflexivity |].
    symmetry. destruct Hstate as [Hg | Hc].
    - apply Z.eqb_neq in Hg. now rewrite Hg.
    - rewrite Hc. apply andb_false_r. }
  split; [exact Heq | split].
  { intros r w' Hrun. rewrite Heq in Hrun.
    unfold reconcileUpdating, bind at 1, record in Hrun. unfold bind at 1 in Hrun.
    change {| instances := instances (afterCall w); configMaps := configMaps (afterCall w);
              faults := faults (afterCall w); calls := calls (afterCall w);
              trace := trace (afterCall w) ++
                [Event "Normal" reasonAdding "Updating resources in the ConfigMap."] |}
      with (withTrace (afterCall w)
              (trace w ++ [Event "Normal" reasonAdding "Updating resources in the ConfigMap."]))
      in Hrun.
    destruct (addCustomResourceStateMetric _ _ _ _ _ _) as [[[instance' e] w1]|] eqn:Hadd;
      [|discriminate].
    exists instance', e, w1. split; [reflexivity |].
    split; [eapply add_returns_instance; exact Hadd |].
    destruct e as [err|].
    - split; [discriminate |]. intros _. eapply failWith_returns_error; exact Hrun.
    - split; [|congruence]. intros _. now inversion Hrun. }
  intros r w' Hrun. rewrite Heq in Hrun.
  destruct (keeps_reconcileUpdating _ _ _ _ _ Hrun) as [Hf Hu].
  change (finalizersOf (afterCall w)) with (finalizersOf w) in Hf.
  change (instanceUpdates (afterCall w)) with (instanceUpdates w) in Hu.
  split; [exact Hf | split; [exact Hu |]].
  unfold finalizersOf in Hf.
  rewrite <- lookup_fmap, Hf, lookup_fmap, Hget. reflexivity.
Qed.

End KeepsPaths.

Lemma reconcile_updating_keeps_finalizers_witness :
  exists r w',
    Reconcile scalarJSON scalarJSON scalarYAML "ns" "a"
      (exampleWorld (exampleInstance None [FinalizerName]) "{}" (fun _ => None))
      = Done (r, w') /\
    finalizersOf w'
      = finalizersOf (exampleWorld (exampleInstance None [FinalizerName]) "{}" (fun _ => None)) /\
    instanceUpdates w'
      = instanceUpdates (exampleWorld (exampleInstance None [FinalizerName]) "{}" (fun _ => None)) /\
    Finalizers <$> instances w' !! ("ns", "a") = Some [FinalizerName].
Proof.
  destruct (Reconcile scalarJSON scalarJSON scalarYAML "ns" "a"
              (exampleWorld (exampleInstance None [FinalizerName]) "{}" (fun _ => None)))
    as [[r w']|] eqn:Hrun; [|vm_compute in Hrun; discriminate].
  exists r, w'. split; [reflexivity |].
  destruct (reconcile_updating_keeps_finalizers scalarJSON scalarJSON scalarYAML "ns" "a"
              (exampleWorld (exampleInstance None [FinalizerName]) "{}" (fun _ => None))
              (exampleInstance None [FinalizerName])) as (_ & _ & H).
  - reflexivity.
  - vm_compute. reflexivity.
  - reflexivity.
  - left. discriminate.
  - exact (H r w' Hrun).
Defined.

(** * Further properties of the controller code *)

(** ** The merge engine: when it panics, what it keeps *)

Lemma findBlock_bounds (name : string) (lines : list string) (b e : Z) :
  findBlock name lines = (true, b, e) ->
  0 <= b < Z.of_nat (length lines) /\ 0 <= e < Z.of_nat (length lines).
Proof.
  intros Hf. destruct (findBlock_spec name lines true b e Hf) as [Hb He].
  destruct He as [(? & _) | (_ & ne & -> & HneE & i & Hi & HiB)]; [discriminate |].
  destruct Hb as [(_ & Hb) | (nb & -> & HnbB)]; [now apply Hb in HiB |].
  apply lastAt_lt in HneE, HnbB. lia.
Qed.

(** The joiner returns a text whenever the clamped start is at most the
    effective end plus one. *)
Lemma joinLines_defined (lines : list string) (start end_ : Z) :
  effStart start <= effEnd lines end_ + 1 ->
  exists r, joinLines lines start end_ = Done r.
Proof.
  unfold effStart, effEnd, joinLines, slice. intros H.
  set (lastIndex := Z.of_nat (length lines) - 1) in *.
  assert (Hs : (if start <? 0 then 0 else start) = Z.max 0 start)
    by (destruct (Z.ltb_spec start 0); lia).
  rewrite Hs.
  destruct (Z.eqb_spec end_ lastIndex) as [-> | Hn].
  - assert (He : (if (lastIndex =? -1) || (lastIndex >? lastIndex) then lastIndex
                  else lastIndex) = lastIndex) by now destruct (_ || _).
    rewrite He in H.
    replace (_ && _ && _) with true; [now eexists |].
    symmetry. rewrite !andb_true_iff, !Z.leb_le. unfold lastIndex in *. lia.
  - destruct ((end_ =? -1) || (end_ >? lastIndex)) eqn:Ho.
    + replace (_ && _ && _) with true; [now eexists |].
      symmetry. rewrite !andb_true_iff, !Z.leb_le. unfold lastIndex in *. lia.
    + apply orb_false_iff in Ho as [_ Ho]. rewrite Z.gtb_ltb in Ho. apply Z.ltb_ge in Ho.
      replace (_ && _ && _) with true; [now eexists |].
      symmetry. rewrite !andb_true_iff, !Z.leb_le. unfold lastIndex in *. lia.
Qed.

(** The two kept ranges of a splice are always within bounds. *)
Lemma splice_before_defined (lines : list string) (b : Z) (data : string) :
  0 <= b < Z.of_nat (length lines) ->
  exists d, (if b >? 0
             then obind (joinLines lines 0 (b - 1)) (fun j => Done (data +:+ j))
             else Done data) = Done d.
Proof.
  intros Hb. destruct (Z.gtb_spec b 0); [|now eexists].
  destruct (joinLines_defined lines 0 (b - 1)) as [r ->]; [|now eexists].
  unfold effStart, effEnd.
  replace (b - 1 =? -1) with false by (symmetry; apply Z.eqb_neq; lia).
  replace (b - 1 >? _) with false by (symmetry; rewrite Z.gtb_ltb; apply Z.ltb_ge; lia).
  cbn [orb]. lia.
Qed.

Lemma splice_after_defined (lines : list string) (e : Z) (data : string) :
  0 <= e < Z.of_nat (length lines) ->
  exists d, (if e <? Z.of_nat (length lines) - 1
             then obind (joinLines lines (e + 1) (-1)) (fun j => Done (data +:+ j))
             else Done data) = Done d.
Proof.
  intros He. destruct (Z.ltb_spec e (Z.of_nat (length lines) - 1)); [|now eexists].
  destruct (joinLines_defined lines (e + 1) (-1)) as [r ->]; [|now eexists].
  unfold effStart, effEnd. rewrite Z.eqb_refl. cbn [orb]. lia.
Qed.

(** X1.  The removal never panics: it reports "not found" exactly when the
    locator finds no block, and returns a document otherwise, whatever the
    order of the markers. *)
Theorem removeBlock_never_panics (data name : string) :
  (fst (fst (findBlock name (Split data))) = false /\ removeBlock data name = Done None) \/
  (fst (fst (findBlock name (Split data))) = true /\
   exists d, removeBlock data name = Done (Some d)).
Proof.
  unfold removeBlock.
  destruct (findBlock name (Split data)) as [[[|] b] e] eqn:Hf; [right | left; now split].
  split; [reflexivity |]. cbn [negb].
  destruct (findBlock_bounds name _ b e Hf) as [Hb He].
  destruct (splice_before_defined (Split data) b EmptyString Hb) as [d1 ->]. cbn [obind].
  destruct (splice_after_defined (Split data) e d1 He) as [d2 ->]. cbn [obind].
  now exists d2.
Qed.

(** X2.  The add path panics on the document exactly when the locator finds
    a block whose begin index is more than one past its end index, that is
    when the last begin marker comes two lines or more after the last end
    marker. *)
Theorem upsert_panics_iff (data name dataYaml : string) :
  upsert data name dataYaml = Panicked <->
  exists b e, findBlock name (Split data) = (true, b, e) /\ e + 1 < b.
Proof.
  unfold upsert.
  destruct (findBlock name (Split data)) as [[[|] b] e] eqn:Hf.
  - destruct (findBlock_bounds name _ b e Hf) as [Hb He].
    unfold slice.
    destruct ((0 <=? b) && (b <=? e + 1) && (e + 1 <=? Z.of_nat (length (Split data))))
      eqn:Hg; cbn [obind].
    + split.
      * destruct (String.eqb _ _); [discriminate |].
        destruct (splice_before_defined (Split data) b EmptyString Hb) as [d1 ->].
        cbn [obind].
        destruct (splice_after_defined (Split data) e (d1 +:+ cmData name dataYaml) He)
          as [d2 ->].
        discriminate.
      * intros (b' & e' & [= <- <-] & Hlt).
        rewrite !andb_true_iff, !Z.leb_le in Hg. lia.
    + split; [intros _ | reflexivity]. exists b, e. split; [reflexivity |].
      rewrite !andb_false_iff, !Z.leb_gt in Hg. lia.
  - split; [discriminate |]. intros (b' & e' & [=] & _).
Qed.

Lemma upsert_panics_iff_witness :
  upsert (Join [beginMarker "k"; endMarker "k"; "x"; beginMarker "k"]) "k" EmptyString
  = Panicked.
Proof.
  apply (proj2 (upsert_panics_iff
                  (Join [beginMarker "k"; endMarker "k"; "x"; beginMarker "k"])
                  "k" EmptyString)).
  exists 3, 1. split; [reflexivity | lia].
Defined.

Lemma string_length_app (a b : string) :
  String.length (a +:+ b) = (String.length a + String.length b)%nat.
Proof.
  induction a as [|c a IH]; [reflexivity |].
  rewrite StringsFacts.app_String. cbn [String.length]. now rewrite IH.
Qed.

Lemma string_app_inv_head (a x y : string) : a +:+ x = a +:+ y -> x = y.
Proof.
  induction a as [|c a IH]; [now intros H |].
  rewrite !StringsFacts.app_String. intros [= H]. now apply IH.
Qed.

Lemma string_app_inv_tail (a x y : string) : x +:+ a = y +:+ a -> x = y.
Proof.
  revert y. induction x as [|c x IH]; intros [|d y] H.
  - reflexivity.
  - apply (f_equal String.length) in H. rewrite !string_length_app in H.
    cbn [String.length] in H. lia.
  - apply (f_equal String.length) in H. rewrite !string_length_app in H.
    cbn [String.length] in H. lia.
  - rewrite !StringsFacts.app_String in H. injection H as -> H. f_equal. now apply IH.
Qed.

(** The block text determines the fragment. *)
Lemma cmData_inj (name f g : string) :
  TrimSuffix (cmData name f) = TrimSuffix (cmData name g) -> f = g.
Proof.
  rewrite !cmData_LF, !StringsFacts.TrimSuffix_app_LF. intros H.
  apply string_app_inv_head in H. injection H as H.
  now apply string_app_inv_tail in H.
Qed.

Lemma keptAfter_Split (post : string) : keptAfter (Split post) = TrimRight post.
Proof.
  unfold keptAfter. destruct (Split post) eqn:E.
  - now apply StringsFacts.Split_nonempty in E.
  - rewrite <- E. now rewrite StringsFacts.Join_Split.
Qed.

(** ** The merge engine on a document that holds the block *)

Section InPlace.

Variables name pre old post : string.

Hypothesis Hname : noNL name = true.
Hypothesis Hpre : pre = EmptyString \/ (exists g, pre = g +:+ LF /\ HasSuffix g = false).
Hypothesis Hold : terminated old.
Hypothesis HoldB : Forall (fun l => l <> beginMarker name) (Split old).
Hypothesis HpostB : Forall (fun l => l <> beginMarker name) (Split post).
Hypothesis HpostE : Forall (fun l => l <> endMarker name) (Split post).

Lemma in_place_shape :
  exists L F,
    Split (pre +:+ cmData name old +:+ post)
      = L ++ beginMarker name :: F ++ endMarker name :: Split post /\
    Forall (fun l => l <> beginMarker name) F /\
    keptBefore L = pre /\
    Join (beginMarker name :: F ++ [endMarker name]) = TrimSuffix (cmData name old).
Proof.
  assert (Ht : terminated pre).
  { destruct Hpre as [-> | (g & -> & _)]; [now left | right].
    apply StringsFacts.HasSuffix_app_LF. }
  destruct (Split_terminated pre Ht) as (L & _ & HL & HpL).
  destruct (Split_terminated old Hold) as (F & HF & HFX & _).
  exists L, F. split; [now apply Split_with_block |].
  split; [rewrite HF in HoldB; now apply Forall_app in HoldB as [? _] |].
  split; [now apply keptBefore_lines | now apply Join_block].
Qed.

Lemma in_place_upsert (dataYaml : string) :
  upsert (pre +:+ cmData name old +:+ post) name dataYaml =
  Done (if String.eqb dataYaml old then None
        else Some (pre +:+ cmData name dataYaml +:+ TrimRight post)).
Proof.
  destruct in_place_shape as (L & F & Hs & HF & HL & HJ).
  rewrite (upsert_shape name L F (Split post) _ _ HF HpostB HpostE Hs).
  rewrite HL, HJ, keptAfter_Split. f_equal.
  destruct (String.eqb_spec dataYaml old) as [-> | Hne].
  - now rewrite String.eqb_refl.
  - destruct (String.eqb_spec (TrimSuffix (cmData name dataYaml)) (TrimSuffix (cmData name old)))
      as [Heq | _]; [|reflexivity].
    now apply cmData_inj in Heq.
Qed.

Lemma in_place_remove :
  removeBlock (pre +:+ cmData name old +:+ post) name
  = Done (Some (pre +:+ TrimRight post)).
Proof.
  destruct in_place_shape as (L & F & Hs & HF & HL & _).
  rewrite (removeBlock_shape name L F (Split post) _ HF HpostB HpostE Hs).
  now rewrite HL, keptAfter_Split.
Qed.

(** X3.  On a document made of a text [pre] that is empty or ends with
    exactly one newline, the block of the key with fragment [old], and a text
    [post] without marker of the key: upserting the fragment [old] again is
    the no-op, and upserting another fragment replaces the block in place,
    keeping [pre] as it is and [post] without its trailing newlines. *)
Theorem upsert_in_place (dataYaml : string) :
  upsert (pre +:+ cmData name old +:+ post) name dataYaml =
  Done (if String.eqb dataYaml old then None
        else Some (pre +:+ cmData name dataYaml +:+ TrimRight post)).
Proof. apply in_place_upsert. Qed.

(** X4.  On the same document the removal cuts the block out, keeping [pre]
    as it is and [post] without its trailing newlines. *)
Theorem removeBlock_in_place :
  removeBlock (pre +:+ cmData name old +:+ post) name
  = Done (Some (pre +:+ TrimRight post)).
Proof. apply in_place_remove. Qed.

End InPlace.

Lemma upsert_in_place_witness :
  upsert (cmDataHeader +:+ cmData "a@ns" ("  - a" +:+ LF) +:+ cmData "b@ns" ("  - b" +:+ LF))
    "a@ns" ("  - c" +:+ LF)
  = Done (Some (cmDataHeader +:+ cmData "a@ns" ("  - c" +:+ LF) +:+
                TrimRight (cmData "b@ns" ("  - b" +:+ LF)))).
Proof.
  apply (upsert_in_place "a@ns" cmDataHeader ("  - a" +:+ LF)
           (cmData "b@ns" ("  - b" +:+ LF))).
  - reflexivity.
  - right. exists (TrimSuffix cmDataHeader). split; reflexivity.
  - now right.
  - repeat constructor; discriminate.
  - repeat constructor; discriminate.
  - repeat constructor; discriminate.
Defined.

Lemma removeBlock_in_place_witness :
  removeBlock (cmDataHeader +:+ cmData "a@ns" ("  - a" +:+ LF) +:+
               cmData "b@ns" ("  - b" +:+ LF)) "a@ns"
  = Done (Some (cmDataHeader +:+ TrimRight (cmData "b@ns" ("  - b" +:+ LF)))).
Proof.
  apply (removeBlock_in_place "a@ns" cmDataHeader ("  - a" +:+ LF)
           (cmData "b@ns" ("  - b" +:+ LF))).
  - reflexivity.
  - right. exists (TrimSuffix cmDataHeader). split; reflexivity.
  - now right.
  - repeat constructor; discriminate.
  - repeat constructor; discriminate.
  - repeat constructor; discriminate.
Defined.

(** ** Blocks of different instances *)

Lemma beginMarker_inj (n m : string) : beginMarker n = beginMarker m -> n = m.
Proof. unfold beginMarker. apply string_app_inv_head. Qed.

Lemma endMarker_inj (n m : string) : endMarker n = endMarker m -> n = m.
Proof. unfold endMarker. apply string_app_inv_head. Qed.

Lemma begin_neq_end_any (n m : string) : beginMarker n <> endMarker m.
Proof. unfold beginMarker, endMarker. intros H. inversion H. Qed.

Lemma findBlock_app_no_marker (name : string) (D X : list string) :
  Forall (fun l => l <> beginMarker name) X ->
  Forall (fun l => l <> endMarker name) X ->
  findBlock name (D ++ X) = findBlock name D.
Proof.
  intros HB HE. unfold findBlock. rewrite findBlock_loop_app.
  now apply findBlock_loop_no_marker.
Qed.

(** X5.  Appending the block of one instance leaves the blocks of the others
    where they are: when the document ends with a newline (or is empty), is
    not the placeholder and holds no block of the key, and the fragment is
    made of whole lines none of which is a marker of another key, the
    upserted document gives the locator the same answer for that other key
    as the document did. *)
Theorem upsert_append_keeps_other_blocks (doc name other dataYaml : string) :
  noNL name = true ->
  name <> other ->
  terminated doc ->
  TrimSpace doc <> "{}" ->
  terminated dataYaml ->
  Forall (fun l => l <> beginMarker other /\ l <> endMarker other) (Split dataYaml) ->
  fst (fst (findBlock name (Split doc))) = false ->
  exists d1, upsertBlock doc name dataYaml = Done d1 /\
             findBlock other (Split d1) = findBlock other (Split doc).
Proof.
  intros Hn Hne Hdoc Hph Hf Hfm Hfind.
  exists (doc +:+ cmData name dataYaml). split.
  - unfold upsertBlock, upsert.
    destruct (findBlock name (Split doc)) as [[fd b] e]. cbn in Hfind. subst fd.
    apply String.eqb_neq in Hph. now rewrite Hph.
  - destruct (Split_terminated doc Hdoc) as (D & HD & HDX & _).
    destruct (Split_terminated dataYaml Hf) as (F & HF & HFX & _).
    rewrite <- (StringsFacts.app_empty_r (cmData name dataYaml)).
    rewrite (Split_with_block name dataYaml doc EmptyString D F Hn HDX HFX), HD.
    rewrite HF in Hfm. apply Forall_app in Hfm as [Hfm _].
    rewrite !findBlock_app_no_marker; try reflexivity.
    + repeat constructor. apply beginMarker_not_empty.
    + repeat constructor. apply endMarker_not_empty.
    + constructor; [intros H; now apply beginMarker_inj in H |].
      apply Forall_app. split.
      * eapply Forall_impl; [exact Hfm | now intros l [? ?]].
      * constructor; [|repeat constructor; apply beginMarker_not_empty].
        intros H. symmetry in H. now apply begin_neq_end_any in H.
    + constructor; [apply begin_neq_end_any |].
      apply Forall_app. split.
      * eapply Forall_impl; [exact Hfm | now intros l [? ?]].
      * constructor; [|repeat constructor; apply endMarker_not_empty].
        intros H. now apply endMarker_inj in H.
Qed.

Lemma upsert_append_keeps_other_blocks_witness :
  exists d1,
    upsertBlock (cmDataHeader +:+ cmData "b@ns" ("  - b" +:+ LF)) "a@ns" ("  - a" +:+ LF)
      = Done d1 /\
    findBlock "b@ns" (Split d1)
      = findBlock "b@ns" (Split (cmDataHeader +:+ cmData "b@ns" ("  - b" +:+ LF))).
Proof.
  apply upsert_append_keeps_other_blocks.
  - reflexivity.
  - discriminate.
  - now right.
  - vm_compute. discriminate.
  - now right.
  - repeat constructor; discriminate.
  - reflexivity.
Defined.

(** X6.  Distinct instances have distinct keys as long as their names hold
    no "@": the key determines the name and the namespace. *)
Theorem NamespacedName_inj (n1 ns1 n2 ns2 : string) :
  noAt n1 = true -> noAt n2 = true ->
  NamespacedName n1 ns1 = NamespacedName n2 ns2 ->
  n1 = n2 /\ ns1 = ns2.
Proof.
  unfold NamespacedName. revert n2.
  induction n1 as [|c n1 IH]; intros [|d n2] H1 H2 H.
  - now injection H.
  - cbn in H2. injection H as <- _. discriminate.
  - cbn in H1. injection H as -> _. discriminate.
  - rewrite !StringsFacts.app_String in H. injection H as -> H.
    cbn in H1, H2. apply andb_true_iff in H1 as [_ H1], H2 as [_ H2].
    destruct (IH n2 H1 H2 H) as [-> ->]. now split.
Qed.

Lemma NamespacedName_inj_witness :
  ("foo" : string) = "foo" /\ ("bar" : string) = "bar".
Proof.
  apply (NamespacedName_inj "foo" "bar" "foo" "bar"); reflexivity.
Defined.

(** ** The resource encoder: all resources or none *)

Section Encoder.

Context {R J : Type}.
Variable MarshalJSON : R -> error + string.
Variable jsonUnmarshal : string -> error + J.
Variable yamlMarshal : list J -> error + string.

(** The resource [r] goes through both JSON steps and gives [j]. *)
Let transcodes (r : R) (j : J) : Prop :=
  exists jsonBytes, MarshalJSON r = inr jsonBytes /\ jsonUnmarshal jsonBytes = inr j.

Lemma decodeResources_inr (resources : list R) (acc data : list J) :
  decodeResources MarshalJSON jsonUnmarshal resources acc = inr data <->
  exists js, data = acc ++ js /\ Forall2 transcodes resources js.
Proof.
  revert acc. induction resources as [|r resources IH]; intros acc; cbn [decodeResources].
  - split.
    + intros [= <-]. exists []. split; [now rewrite app_nil_r | constructor].
    + intros (js & -> & H). inversion H. now rewrite app_nil_r.
  - split.
    + destruct (MarshalJSON r) as [e|b] eqn:Hm; [discriminate |].
      destruct (jsonUnmarshal b) as [e|j] eqn:Hu; [discriminate |].
      intros H. apply IH in H as (js & -> & H). exists (j :: js). split.
      * now rewrite <- List.app_assoc.
      * constructor; [now exists b | assumption].
    + intros (js & -> & H). inversion H as [|? j ? js' (b & Hm & Hu) H']; subst.
      rewrite Hm, Hu. apply IH. exists js'. split; [now rewrite <- List.app_assoc | assumption].
Qed.

(** X7.  The encoder returns a fragment exactly when every resource goes
    through both JSON steps and the serializer accepts the values, taken in
    the order of the resources; the fragment is then the serialized text
    without its first line.  One resource that fails makes the whole
    encoding fail. *)
Theorem decodeData_all_or_nothing (resources : list R) (out : string) :
  decodeData MarshalJSON jsonUnmarshal yamlMarshal resources = inr out <->
  exists data y,
    Forall2 (fun r j => exists jsonBytes,
               MarshalJSON r = inr jsonBytes /\ jsonUnmarshal jsonBytes = inr j)
      resources data /\
    yamlMarshal data = inr y /\
    out = stripFirstLine y.
Proof.
  unfold decodeData. split.
  - destruct (decodeResources _ _ resources []) as [e|data] eqn:Hd; [discriminate |].
    apply decodeResources_inr in Hd as (js & -> & H). cbn [app].
    destruct (yamlMarshal js) as [e|y] eqn:Hy; [discriminate |].
    intros [= <-]. now exists js, y.
  - intros (data & y & H & Hy & ->).
    assert (Hd : decodeResources MarshalJSON jsonUnmarshal resources [] = inr data)
      by (apply decodeResources_inr; now exists data).
    now rewrite Hd, Hy.
Qed.

End Encoder.

Lemma decodeData_all_or_nothing_witness :
  decodeData scalarJSON scalarJSON scalarYAML ["a"; "b"]
  = inr ("    - a" +:+ LF +:+ "    - b" +:+ LF).
Proof.
  apply (proj2 (decodeData_all_or_nothing scalarJSON scalarJSON scalarYAML ["a"; "b"] _)).
  exists ["a"; "b"], ("resources:" +:+ LF +:+ "    - a" +:+ LF +:+ "    - b" +:+ LF).
  split; [|split; reflexivity].
  repeat constructor; now eexists.
Defined.

(** ** Reconciliation: what an error leaves behind, what success records *)

#[local] Hint Resolve keeps_GetConfigMap keeps_CreateConfigMap keeps_UpdateConfigMap
  keeps_UpdateStatus keeps_finishWith keeps_failWith keeps_add
  keeps_reconcileUpdating : keeps_db.

Section Runs.

Context {R J : Type}.
Variable MarshalJSON : R -> error + string.
Variable jsonUnmarshal : string -> error + J.
Variable yamlMarshal : list J -> error + string.

Lemma bind_inv {A B} (m : M R A) (k : A -> M R B) (w : World R) (b : B) (w' : World R) :
  bind m k w = Done (b, w') ->
  exists a w1, m w = Done (a, w1) /\ k a w1 = Done (b, w').
Proof.
  unfold bind. destruct (m w) as [[a w1]|]; [|discriminate].
  intros H. now exists a, w1.
Qed.

Lemma keeps_GetInstance (namespace name : string) :
  keeps (GetInstance (RawExtension := R) namespace name).
Proof.
  unfold GetInstance. apply keeps_bind; [apply keeps_nextFault |].
  intros [err|]; [apply keeps_ret |].
  apply keeps_bind; [|intros ?; apply keeps_ret].
  intros w a w' [= <- <-]. now split.
Qed.

Lemma keeps_delete (i : CustomResourceStateMetrics R) (nn : string) :
  keeps (deleteCustomResourceStateMetric i nn).
Proof. unfold deleteCustomResourceStateMetric. repeat keeps_step. Qed.

(** An instance update that fails stores nothing; one that succeeds stores
    the instance given, with the status the store has. *)
Lemma UpdateInstance_run (i : CustomResourceStateMetrics R) (w : World R)
    (e : option error) (w' : World R) :
  UpdateInstance i w = Done (e, w') ->
  match e with
  | Some _ => instances w' = instances w
  | None =>
      instances w' =
        alter (fun s => withConditions i (Status_Conditions s))
          (Namespace i, Name i) (instances w)
  end.
Proof.
  unfold UpdateInstance, bind, record, nextFault, getInstances, putInstances, ret. cbn.
  destruct (faults w (calls w)); intros [= <- <-]; reflexivity.
Qed.

Lemma UpdateStatus_run (i : CustomResourceStateMetrics R) (w : World R)
    (e : option error) (w' : World R) :
  UpdateStatus i w = Done (e, w') ->
  match e with
  | Some _ => instances w' = instances w
  | None =>
      instances w' =
        alter (fun s => withConditions s (Status_Conditions i))
          (Namespace i, Name i) (instances w)
  end.
Proof.
  unfold UpdateStatus, bind, record, nextFault, getInstances, putInstances, ret. cbn.
  destruct (faults w (calls w)); intros [= <- <-]; reflexivity.
Qed.

Lemma reconcileDeleting_error (i : CustomResourceStateMetrics R) (nn : string)
    (w : World R) (err : error) (w' : World R) :
  reconcileDeleting i nn w = Done (Some err, w') -> finalizersOf w' = finalizersOf w.
Proof.
  unfold reconcileDeleting. intros H.
  apply bind_inv in H as (u & w1 & H1 & H).
  apply keeps_record in H1 as [H1 _]; [|reflexivity].
  apply bind_inv in H as ([i' e] & w2 & H2 & H).
  apply keeps_delete in H2 as [H2 _].
  destruct e as [e|].
  - apply keeps_failWith in H as [H _]. congruence.
  - destruct (ContainsFinalizer i' FinalizerName); [|discriminate].
    apply bind_inv in H as (e & w3 & H3 & H). destruct e as [e|]; [|discriminate].
    apply UpdateInstance_run in H3. apply keeps_failWith in H as [H _].
    unfold finalizersOf in *. congruence.
Qed.

Lemma reconcileCreating_error (i : CustomResourceStateMetrics R) (nn : string)
    (w : World R) (err : error) (w' : World R) :
  reconcileCreating MarshalJSON jsonUnmarshal yamlMarshal i nn w = Done (Some err, w') ->
  finalizersOf w' = finalizersOf w.
Proof.
  unfold reconcileCreating. intros H.
  apply bind_inv in H as (u & w1 & H1 & H).
  apply keeps_record in H1 as [H1 _]; [|reflexivity].
  apply bind_inv in H as (e & w2 & H2 & H).
  apply keeps_UpdateStatus in H2 as [H2 _].
  destruct e as [e|]; [injection H as _ <-; congruence |].
  apply bind_inv in H as ([i' e] & w3 & H3 & H).
  apply keeps_add in H3 as [H3 _].
  destruct e as [e|].
  - apply keeps_failWith in H as [H _]. congruence.
  - destruct (negb (ContainsFinalizer i' FinalizerName)); [|discriminate].
    apply bind_inv in H as (e & w4 & H4 & H). destruct e as [e|]; [|discriminate].
    apply UpdateInstance_run in H4.
    apply bind_inv in H as (u' & w5 & H5 & H).
    apply keeps_record in H5 as [H5 _]; [|reflexivity].
    injection H as _ <-. unfold finalizersOf in *. congruence.
Qed.

(** X8.  Whenever [Reconcile] returns an error, the finalizers of the stored
    instances are as before: the finalizer is registered only by a creation
    that succeeded and removed only by a deletion that reported success. *)
Theorem reconcile_error_keeps_finalizers (namespace name : string)
    (w : World R) (err : error) (w' : World R) :
  Reconcile MarshalJSON jsonUnmarshal yamlMarshal namespace name w = Done (Some err, w') ->
  finalizersOf w' = finalizersOf w.
Proof.
  unfold Reconcile. intros H.
  apply bind_inv in H as (r & w1 & H1 & H).
  apply keeps_GetInstance in H1 as [H1 _].
  destruct r as [e|i]; [injection H as _ <-; exact H1 |].
  destruct (negb (IsZero (DeletionTimestamp i))).
  - apply reconcileDeleting_error in H. congruence.
  - destruct (_ && _).
    + apply reconcileCreating_error in H. congruence.
    + apply keeps_reconcileUpdating in H as [H _]. congruence.
Qed.

(** X9.  When the instance cannot be fetched, [Reconcile] does nothing but
    the fetch: it returns no error when the instance does not exist, and the
    error of the fetch otherwise. *)
Theorem reconcile_instance_not_fetched (namespace name : string) (w : World R) :
  (faults w (calls w) = None -> instances w !! (namespace, name) = None ->
   Reconcile MarshalJSON jsonUnmarshal yamlMarshal namespace name w
     = Done (None, afterCall w)) /\
  (forall err, faults w (calls w) = Some err ->
   Reconcile MarshalJSON jsonUnmarshal yamlMarshal namespace name w
     = Done (if IsNotFound err then None else Some err, afterCall w)).
Proof.
  split.
  - intros Hf Hi. unfold Reconcile, GetInstance, bind, nextFault, getInstances, ret.
    cbv beta. rewrite Hf. cbv beta iota. cbn [instances]. rewrite Hi. reflexivity.
  - intros err Hf. unfold Reconcile, GetInstance, bind, nextFault, getInstances, ret.
    cbv beta. rewrite Hf. reflexivity.
Qed.

End Runs.

Lemma reconcile_error_keeps_finalizers_witness :
  exists w',
    stateOf (Reconcile scalarJSON scalarJSON scalarYAML "ns" "a"
               (exampleWorld (exampleInstance (Some 1) [FinalizerName])
                  (cmData "a@ns" ("    - a: b" +:+ LF))
                  (failAt 2 (ErrOther "the object has been modified")))) = Some w' /\
    finalizersOf w'
    = finalizersOf (exampleWorld (exampleInstance (Some 1) [FinalizerName])
                      (cmData "a@ns" ("    - a: b" +:+ LF))
                      (failAt 2 (ErrOther "the object has been modified"))).
Proof.
  destruct (Reconcile scalarJSON scalarJSON scalarYAML "ns" "a"
              (exampleWorld (exampleInstance (Some 1) [FinalizerName])
                 (cmData "a@ns" ("    - a: b" +:+ LF))
                 (failAt 2 (ErrOther "the object has been modified"))))
    as [[[err|] w']|] eqn:Hrun;
    [|vm_compute in Hrun; discriminate | vm_compute in Hrun; discriminate].
  exists w'. split; [reflexivity |].
  exact (reconcile_error_keeps_finalizers _ _ _ _ _ _ _ _ Hrun).
Defined.

Lemma reconcile_instance_not_fetched_witness :
  Reconcile scalarJSON scalarJSON scalarYAML "ns" "gone"
    (exampleWorld (exampleInstance None []) cmDataHeader (fun _ => None))
  = Done (None, afterCall (exampleWorld (exampleInstance None []) cmDataHeader (fun _ => None))).
Proof.
  apply (proj1 (reconcile_instance_not_fetched scalarJSON scalarJSON scalarYAML "ns" "gone"
                  (exampleWorld (exampleInstance None []) cmDataHeader (fun _ => None)))).
  - reflexivity.
  - vm_compute. reflexivity.
Defined.

Section Success.

Context {R J : Type}.
Variable MarshalJSON : R -> error + string.
Variable jsonUnmarshal : string -> error + J.
Variable yamlMarshal : list J -> error + string.

(** The ConfigMap calls, the events and the pure steps leave the stored
    instances alone. *)
Lemma GetConfigMap_instances ns n (w : World R) r w' :
  GetConfigMap ns n w = Done (r, w') -> instances w' = instances w.
Proof.
  unfold GetConfigMap, bind, nextFault, getConfigMaps, ret. cbn.
  destruct (faults w (calls w)); now intros [= _ <-].
Qed.

Lemma CreateConfigMap_instances ns n d (w : World R) r w' :
  CreateConfigMap ns n d w = Done (r, w') -> instances w' = instances w.
Proof.
  unfold CreateConfigMap, bind, record, nextFault, getConfigMaps, putConfigMaps, ret. cbn.
  destruct (faults w (calls w)); now intros [= _ <-].
Qed.

Lemma UpdateConfigMap_instances ns n d (w : World R) r w' :
  UpdateConfigMap ns n d w = Done (r, w') -> instances w' = instances w.
Proof.
  unfold UpdateConfigMap, bind, record, nextFault, getConfigMaps, putConfigMaps, ret. cbn.
  destruct (faults w (calls w)); now intros [= _ <-].
Qed.

Lemma record_instances a (w : World R) u w' :
  record a w = Done (u, w') -> instances w' = instances w.
Proof. now intros [= _ <-]. Qed.

Lemma lift_run {A} (o : outcome A) (w : World R) a w' :
  lift o w = Done (a, w') -> o = Done a /\ w' = w.
Proof. unfold lift. destruct o; [|discriminate]. now intros [= <- <-]. Qed.

Lemma finishWith_run (i : CustomResourceStateMetrics R) status reason message
    (w : World R) i' e w' :
  finishWith i status reason message w = Done ((i', e), w') ->
  i' = setReady i status reason message /\
  (e = None ->
   instances w' =
     alter (fun s => withConditions s (Status_Conditions i'))
       (Namespace i, Name i) (instances w)).
Proof.
  unfold finishWith. intros H.
  apply bind_inv in H as (e0 & w1 & H1 & H). apply UpdateStatus_run in H1.
  destruct e0; injection H as <- <- <-; (split; [reflexivity |]); [discriminate |].
  intros _. exact H1.
Qed.

(** A successful add path returns the instance with Ready set to true and
    has written that status. *)
Lemma add_success (i : CustomResourceStateMetrics R) (nn : string)
    (w : World R) (i' : CustomResourceStateMetrics R) (w' : World R) :
  addCustomResourceStateMetric MarshalJSON jsonUnmarshal yamlMarshal i nn w
    = Done ((i', None), w') ->
  (exists message, i' = setReady i ConditionTrue reasonAdding message) /\
  instances w' =
    alter (fun s => withConditions s (Status_Conditions i'))
      (Namespace i, Name i) (instances w).
Proof.
  unfold addCustomResourceStateMetric. intros H.
  destruct (decodeData _ _ _ _) as [err|dataYaml]; [discriminate |].
  apply bind_inv in H as (r & w1 & H1 & H). apply GetConfigMap_instances in H1.
  destruct r as [err|data].
  - destruct (IgnoreNotFound err); [discriminate |].
    apply bind_inv in H as (e & w2 & H2 & H). apply CreateConfigMap_instances in H2.
    destruct e; [discriminate |].
    apply bind_inv in H as (u & w3 & H3 & H). apply record_instances in H3.
    apply finishWith_run in H as [-> H]. split; [now eexists |].
    rewrite (H eq_refl). congruence.
  - apply bind_inv in H as (up & w2 & H2 & H). apply lift_run in H2 as [_ ->].
    destruct up as [content|].
    + apply bind_inv in H as (d & w3 & H3 & H). apply lift_run in H3 as [_ ->].
      apply bind_inv in H as (e & w4 & H4 & H). apply UpdateConfigMap_instances in H4.
      destruct e; [discriminate |].
      apply bind_inv in H as (u & w5 & H5 & H). apply record_instances in H5.
      apply finishWith_run in H as [-> H]. split; [now eexists |].
      rewrite (H eq_refl). congruence.
    + apply bind_inv in H as (u & w3 & H3 & H). apply record_instances in H3.
      apply finishWith_run in H as [-> H]. split; [now eexists |].
      rewrite (H eq_refl). congruence.
Qed.

(** The delete path returns the instance it was given, but for its status. *)
Lemma delete_returns_instance (i : CustomResourceStateMetrics R) (nn : string)
    (w : World R) (i' : CustomResourceStateMetrics R) (e : option error) (w' : World R) :
  deleteCustomResourceStateMetric i nn w = Done ((i', e), w') ->
  Finalizers i' = Finalizers i /\ Namespace i' = Namespace i /\ Name i' = Name i.
Proof.
  unfold deleteCustomResourceStateMetric, finishWith, GetConfigMap,
    UpdateConfigMap, UpdateStatus, bind, record, nextFault, getConfigMaps, putConfigMaps,
    getInstances, putInstances, ret, lift.
  cbn. intros H.
  repeat match type of H with
         | context [match ?x with _ => _ end] => destruct x; cbn in H
         end;
    try discriminate; injection H as <- _ _; repeat split.
Qed.

Lemma filter_without (f : string) (l : list string) :
  existsb (String.eqb f) l = false ->
  List.filter (fun g => negb (String.eqb g f)) l = l.
Proof.
  induction l as [|x l IH]; [reflexivity |]. cbn.
  intros [Hx Hl]%orb_false_iff. rewrite String.eqb_sym, Hx. cbn. now rewrite IH.
Qed.

(** X10.  A reconciliation in the Creating state (generation 1, no
    finalizer) that returns no error leaves the stored instance with the
    finalizer appended to its finalizers and with a Ready condition that is
    true with reason Adding. *)
Theorem reconcile_creating_success (w : World R) (instance : CustomResourceStateMetrics R)
    (w' : World R) :
  faults w (calls w) = None ->
  instances w !! (Namespace instance, Name instance) = Some instance ->
  DeletionTimestamp instance = None ->
  Generation instance = 1 ->
  ContainsFinalizer instance FinalizerName = false ->
  Reconcile MarshalJSON jsonUnmarshal yamlMarshal (Namespace instance) (Name instance) w
    = Done (None, w') ->
  exists stored message,
    instances w' !! (Namespace instance, Name instance) = Some stored /\
    Finalizers stored = Finalizers instance ++ [FinalizerName] /\
    In {| Type_ := conditionTypeReady; Status := ConditionTrue;
          Reason := reasonAdding; Message := message |} (Status_Conditions stored).
Proof.
  intros Hfault Hget Hdel Hgen Hfin.
  unfold Reconcile, GetInstance, bind at 1 2, nextFault.
  rewrite Hfault. unfold bind at 1, getInstances, ret. cbn [instances].
  rewrite Hget, Hdel, Hgen, Hfin. cbn [IsZero negb Z.eqb Pos.eqb andb].
  unfold reconcileCreating. intros H.
  apply bind_inv in H as (u & w1 & H1 & H). injection H1 as _ <-.
  apply bind_inv in H as (e & w2 & H2 & H).
  apply UpdateStatus_run in H2. destruct e as [e|]; [discriminate |].
  apply bind_inv in H as ([i' e] & w3 & H3 & H).
  destruct e as [e|]; [now apply failWith_returns_error in H |].
  apply add_success in H3 as [[message Hi'] H3].
  assert (Hc : ContainsFinalizer i' FinalizerName = false) by (now subst i').
  rewrite Hc in H. cbn [negb] in H.
  apply bind_inv in H as (e & w4 & H4 & H).
  destruct e as [e|].
  { apply bind_inv in H as (u' & w5 & _ & H). discriminate. }
  injection H as <-. apply UpdateInstance_run in H4.
  unfold AddFinalizer in H4. rewrite Hc in H4.
  cbn [instances Namespace Name Status_Conditions withConditions withFinalizers
       setReady] in H2, H3, H4.
  subst i'. cbn [Namespace Name withConditions withFinalizers setReady Status_Conditions
                 Finalizers] in H3, H4.
  rewrite H4, H3, H2. rewrite !lookup_alter_eq, Hget. cbn.
  eexists _, message. split; [reflexivity |]. split; [reflexivity |].
  apply SetStatusCondition_In.
Qed.

(** X11.  A reconciliation of an instance under deletion that returns no
    error leaves the stored instance without the finalizer, its other
    finalizers being kept. *)
Theorem reconcile_deleting_success (w : World R) (instance : CustomResourceStateMetrics R)
    (t : Z) (w' : World R) :
  faults w (calls w) = None ->
  instances w !! (Namespace instance, Name instance) = Some instance ->
  DeletionTimestamp instance = Some t ->
  Reconcile MarshalJSON jsonUnmarshal yamlMarshal (Namespace instance) (Name instance) w
    = Done (None, w') ->
  Finalizers <$> instances w' !! (Namespace instance, Name instance)
    = Some (List.filter (fun g => negb (String.eqb g FinalizerName)) (Finalizers instance)).
Proof.
  intros Hfault Hget Hdel.
  unfold Reconcile, GetInstance, bind at 1 2, nextFault.
  rewrite Hfault. unfold bind at 1, getInstances, ret. cbn [instances].
  rewrite Hget, Hdel. cbn [IsZero negb].
  unfold reconcileDeleting. intros H.
  apply bind_inv in H as (u & w1 & H1 & H).
  apply keeps_record in H1 as [H1 _]; [|reflexivity].
  apply bind_inv in H as ([i' e] & w2 & H2 & H).
  destruct (delete_returns_instance _ _ _ _ _ _ H2) as (Hf & Hns & Hn).
  apply keeps_delete in H2 as [H2 _].
  destruct e as [e|]; [now apply failWith_returns_error in H |].
  assert (Hstored : Finalizers <$> instances w2 !! (Namespace instance, Name instance)
                    = Some (Finalizers instance)).
  { rewrite <- lookup_fmap. change (finalizersOf w2 !! (Namespace instance, Name instance)
                                     = Some (Finalizers instance)).
    rewrite H2, H1. unfold finalizersOf. cbn [instances].
    now rewrite lookup_fmap, Hget. }
  unfold ContainsFinalizer in H. rewrite Hf in H.
  destruct (existsb (String.eqb FinalizerName) (Finalizers instance)) eqn:Hc.
  - apply bind_inv in H as (e & w3 & H3 & H).
    destruct e as [e|]; [now apply failWith_returns_error in H |].
    injection H as <-. apply UpdateInstance_run in H3.
    cbn [Namespace Name RemoveFinalizer withFinalizers] in H3.
    rewrite H3, Hns, Hn, lookup_alter_eq.
    destruct (instances w2 !! (Namespace instance, Name instance)); [|discriminate].
    cbn. now rewrite Hf.
  - injection H as <-. rewrite Hstored. now rewrite filter_without.
Qed.

End Success.

Lemma reconcile_creating_success_witness :
  exists stored message,
    (w' ← stateOf (Reconcile scalarJSON scalarJSON scalarYAML "ns" "a"
                     (exampleWorld
                        {| Name := "a"; Namespace := "ns"; Generation := 1;
                           DeletionTimestamp := None; Finalizers := [];
                           Spec_ConfigMap := {| CM_Name := "cm"; CM_Namespace := "";
                                                CM_Key := "config.yaml" |};
                           Spec_Resources := ["a: b"]; Status_Conditions := [] |}
                        "{}" (fun _ => None)));
     instances w' !! ("ns", "a")) = Some stored /\
    Finalizers stored = [FinalizerName] /\
    In {| Type_ := conditionTypeReady; Status := ConditionTrue;
          Reason := reasonAdding; Message := message |} (Status_Conditions stored).
Proof.
  set (i := {| Name := "a"; Namespace := "ns"; Generation := 1;
               DeletionTimestamp := None; Finalizers := [];
               Spec_ConfigMap := {| CM_Name := "cm"; CM_Namespace := "";
                                    CM_Key := "config.yaml" |};
               Spec_Resources := ["a: b"]; Status_Conditions := [] |}
            : CustomResourceStateMetrics string).
  destruct (Reconcile scalarJSON scalarJSON scalarYAML "ns" "a"
              (exampleWorld i "{}" (fun _ => None)))
    as [[[err|] w']|] eqn:Hrun;
    [vm_compute in Hrun; discriminate | | vm_compute in Hrun; discriminate].
  destruct (reconcile_creating_success scalarJSON scalarJSON scalarYAML
              (exampleWorld i "{}" (fun _ => None)) i w')
    as (stored & message & Hs & Hf & Hc);
    [reflexivity | vm_compute; reflexivity | reflexivity | reflexivity | reflexivity
    | exact Hrun |].
  exists stored, message. cbn [stateOf mbind option_bind].
  split; [exact Hs | split; [exact Hf | exact Hc]].
Defined.

Lemma reconcile_deleting_success_witness :
  (w' ← stateOf (Reconcile scalarJSON scalarJSON scalarYAML "ns" "a"
                   (exampleWorld (exampleInstance (Some 1) ["other"; FinalizerName])
                      (cmDataHeader +:+ cmData "a@ns" ("    - a: b" +:+ LF))
                      (fun _ => None)));
   Finalizers <$> instances w' !! ("ns", "a")) = Some ["other"].
Proof.
  destruct (Reconcile scalarJSON scalarJSON scalarYAML "ns" "a"
              (exampleWorld (exampleInstance (Some 1) ["other"; FinalizerName])
                 (cmDataHeader +:+ cmData "a@ns" ("    - a: b" +:+ LF))
                 (fun _ => None)))
    as [[[err|] w']|] eqn:Hrun;
    [vm_compute in Hrun; discriminate | | vm_compute in Hrun; discriminate].
  cbn [stateOf mbind option_bind].
  apply (reconcile_deleting_success scalarJSON scalarJSON scalarYAML
           (exampleWorld (exampleInstance (Some 1) ["other"; FinalizerName])
              (cmDataHeader +:+ cmData "a@ns" ("    - a: b" +:+ LF))
              (fun _ => None))
           (exampleInstance (Some 1) ["other"; FinalizerName]) 1 w').
  - reflexivity.
  - vm_compute. reflexivity.
  - reflexivity.
  - exact Hrun.
Defined.

(** ** The two paths against the ConfigMap *)

Section Paths.

Context {R J : Type}.
Variable MarshalJSON : R -> error + string.
Variable jsonUnmarshal : string -> error + J.
Variable yamlMarshal : list J -> error + string.

(** X12.  No churn: when the ConfigMap already holds the block of the
    instance with the fragment the encoder gives now (after a terminated
    text, before a text without marker of the instance), the add path issues
    no ConfigMap write, leaves the ConfigMaps as they are and sets Ready to
    true; its only error can be that of the status update. *)
Theorem add_same_block_writes_nothing (instance : CustomResourceStateMetrics R)
    (nn : string) (w : World R) (data : option (gmap string string))
    (dataYaml pre post : string) :
  decodeData MarshalJSON jsonUnmarshal yamlMarshal (Spec_Resources instance) = inr dataYaml ->
  faults w (calls w) = None ->
  configMaps w !! (targetNamespace instance, CM_Name (Spec_ConfigMap instance)) = Some data ->
  dataGet data (CM_Key (Spec_ConfigMap instance)) = pre +:+ cmData nn dataYaml +:+ post ->
  noNL nn = true ->
  terminated pre -> terminated dataYaml ->
  Forall (fun l => l <> beginMarker nn) (Split dataYaml) ->
  Forall (fun l => l <> beginMarker nn) (Split post) ->
  Forall (fun l => l <> endMarker nn) (Split post) ->
  exists e w',
    addCustomResourceStateMetric MarshalJSON jsonUnmarshal yamlMarshal instance nn w
      = Done ((setReady instance ConditionTrue reasonAdding
                 "The same resources already exist in the ConfigMap.", e), w') /\
    configMaps w' = configMaps w /\
    List.filter isConfigMapWrite (trace w') = List.filter isConfigMapWrite (trace w) /\
    e = match faults w (S (calls w)) with
        | None => None
        | Some err =>
            Some (Errorf
              "failed to update status for the CustomResourceStateMetrics instance %s: %w" err)
        end.
Proof.
  intros Hdec Hfault Hcm Hdata Hn Hpre Hf HfB HpB HpE.
  unfold addCustomResourceStateMetric. rewrite Hdec.
  unfold GetConfigMap, finishWith, UpdateStatus,
    bind, nextFault, getConfigMaps, getInstances, putInstances, record, ret, lift.
  cbn. rewrite Hfault. cbn. rewrite Hcm. cbn.
  rewrite Hdata, (upsert_settled nn dataYaml pre post Hn Hpre Hf HfB HpB HpE). cbn.
  destruct (faults w (S (calls w))) as [err|]; cbn;
    do 2 eexists; (split; [reflexivity |]); cbn;
    (split; [reflexivity |]);
    (split; [rewrite !List.filter_app; cbn; now rewrite !app_nil_r | reflexivity]).
Qed.

(** X13.  When the ConfigMap does not exist and its creation succeeds, the
    add path creates it with the document made of the header preamble and
    the block of the instance under the configured key, and nothing else;
    for a fragment made of whole lines without begin marker, this document
    is one on which the add path changes nothing. *)
Theorem add_creates_configmap (instance : CustomResourceStateMetrics R)
    (nn : string) (w : World R) (dataYaml : string) :
  decodeData MarshalJSON jsonUnmarshal yamlMarshal (Spec_Resources instance) = inr dataYaml ->
  faults w (calls w) = None ->
  configMaps w !! (targetNamespace instance, CM_Name (Spec_ConfigMap instance)) = None ->
  faults w (S (calls w)) = None ->
  exists i' e w',
    addCustomResourceStateMetric MarshalJSON jsonUnmarshal yamlMarshal instance nn w
      = Done ((i', e), w') /\
    configMaps w' =
      <[(targetNamespace instance, CM_Name (Spec_ConfigMap instance)) :=
          Some {[ CM_Key (Spec_ConfigMap instance) := cmDataHeader +:+ cmData nn dataYaml ]}]>
        (configMaps w) /\
    (noNL nn = true -> terminated dataYaml ->
     Forall (fun l => l <> beginMarker nn) (Split dataYaml) ->
     upsert (cmDataHeader +:+ cmData nn dataYaml) nn dataYaml = Done None).
Proof.
  intros Hdec Hfault Hcm Hcreate.
  unfold addCustomResourceStateMetric. rewrite Hdec.
  unfold GetConfigMap, CreateConfigMap, finishWith, UpdateStatus,
    bind, nextFault, getConfigMaps, putConfigMaps, getInstances, putInstances,
    record, ret, lift.
  cbn. rewrite Hfault. cbn. rewrite Hcm. cbn. rewrite Hcreate. cbn.
  destruct (faults w (S (S (calls w)))) as [err|]; cbn;
    do 3 eexists; (split; [reflexivity |]); cbn;
    (split; [reflexivity |]);
    intros Hn Hf HfB;
    rewrite <- (StringsFacts.app_empty_r (cmData nn dataYaml));
    (apply upsert_settled; try assumption;
     [apply terminated_header
     | repeat constructor; apply beginMarker_not_empty
     | repeat constructor; apply endMarker_not_empty]).
Qed.

(** X14.  When the ConfigMap holds the block of the instance (after a text
    that is empty or ends with exactly one newline, before a text without
    marker of the instance), the delete path writes the document without
    the block under the same key and keeps the other keys; when that write
    fails, the ConfigMaps are as before and the failure is returned. *)
Theorem delete_removes_block (instance : CustomResourceStateMetrics R)
    (nn : string) (w : World R) (m : gmap string string) (pre old post : string) :
  faults w (calls w) = None ->
  configMaps w !! (targetNamespace instance, CM_Name (Spec_ConfigMap instance)) = Some (Some m) ->
  m !! CM_Key (Spec_ConfigMap instance) = Some (pre +:+ cmData nn old +:+ post) ->
  noNL nn = true ->
  pre = EmptyString \/ (exists g, pre = g +:+ LF /\ HasSuffix g = false) ->
  terminated old ->
  Forall (fun l => l <> beginMarker nn) (Split old) ->
  Forall (fun l => l <> beginMarker nn) (Split post) ->
  Forall (fun l => l <> endMarker nn) (Split post) ->
  exists i' e w',
    deleteCustomResourceStateMetric instance nn w = Done ((i', e), w') /\
    match faults w (S (calls w)) with
    | None =>
        configMaps w' =
          <[(targetNamespace instance, CM_Name (Spec_ConfigMap instance)) :=
              Some (<[CM_Key (Spec_ConfigMap instance) := pre +:+ TrimRight post]> m)]>
            (configMaps w)
    | Some err =>
        configMaps w' = configMaps w /\
        e = Some (Errorf "failed to update the ConfigMap: %w" err)
    end.
Proof.
  intros Hfault Hcm Hkey Hn Hpre Hold HoldB HpB HpE.
  unfold deleteCustomResourceStateMetric, GetConfigMap, UpdateConfigMap, finishWith,
    UpdateStatus, bind, nextFault, getConfigMaps, putConfigMaps, getInstances,
    putInstances, record, ret, lift.
  cbn. rewrite Hfault. cbn. rewrite Hcm. cbn. rewrite Hkey. cbn.
  rewrite (in_place_remove nn pre old post Hn Hpre Hold HoldB HpB HpE). cbn.
  destruct (faults w (S (calls w))) as [err|]; cbn.
  - do 3 eexists. split; [reflexivity |]. now split.
  - destruct (faults w (S (S (calls w)))); cbn;
      do 3 eexists; (split; reflexivity).
Qed.

End Paths.

Lemma add_same_block_writes_nothing_witness :
  exists e w',
    addCustomResourceStateMetric scalarJSON scalarJSON scalarYAML
      (exampleInstance None [FinalizerName]) "a@ns"
      (exampleWorld (exampleInstance None [FinalizerName])
         (cmDataHeader +:+ cmData "a@ns" ("    - a: b" +:+ LF)) (fun _ => None))
    = Done ((setReady (exampleInstance None [FinalizerName]) ConditionTrue reasonAdding
               "The same resources already exist in the ConfigMap.", e), w') /\
    configMaps w'
    = configMaps (exampleWorld (exampleInstance None [FinalizerName])
                    (cmDataHeader +:+ cmData "a@ns" ("    - a: b" +:+ LF)) (fun _ => None)) /\
    List.filter isConfigMapWrite (trace w') = [] /\
    e = None.
Proof.
  apply (add_same_block_writes_nothing scalarJSON scalarJSON scalarYAML
           (exampleInstance None [FinalizerName]) "a@ns"
           (exampleWorld (exampleInstance None [FinalizerName])
              (cmDataHeader +:+ cmData "a@ns" ("    - a: b" +:+ LF)) (fun _ => None))
           (Some {[ "config.yaml" := cmDataHeader +:+ cmData "a@ns" ("    - a: b" +:+ LF) ]})
           ("    - a: b" +:+ LF) cmDataHeader EmptyString).
  - reflexivity.
  - reflexivity.
  - vm_compute. reflexivity.
  - vm_compute. reflexivity.
  - reflexivity.
  - apply terminated_header.
  - now right.
  - repeat constructor; discriminate.
  - repeat constructor; discriminate.
  - repeat constructor; discriminate.
Defined.

Lemma add_creates_configmap_witness :
  exists i' e w',
    addCustomResourceStateMetric scalarJSON scalarJSON scalarYAML
      (exampleInstance None []) "a@ns"
      {| instances := {[ ("ns", "a") := exampleInstance None [] ]}; configMaps := ∅;
         faults := fun _ => None; calls := 0; trace := [] |}
    = Done ((i', e), w') /\
    configMaps w' =
      <[("ns", "cm") :=
          Some {[ "config.yaml" := cmDataHeader +:+ cmData "a@ns" ("    - a: b" +:+ LF) ]}]> ∅ /\
    (noNL "a@ns" = true -> terminated ("    - a: b" +:+ LF) ->
     Forall (fun l => l <> beginMarker "a@ns") (Split ("    - a: b" +:+ LF)) ->
     upsert (cmDataHeader +:+ cmData "a@ns" ("    - a: b" +:+ LF)) "a@ns"
       ("    - a: b" +:+ LF) = Done None).
Proof.
  apply (add_creates_configmap scalarJSON scalarJSON scalarYAML
           (exampleInstance None []) "a@ns"
           {| instances := {[ ("ns", "a") := exampleInstance None [] ]}; configMaps := ∅;
              faults := fun _ => None; calls := 0; trace := [] |}
           ("    - a: b" +:+ LF)); reflexivity.
Defined.

Lemma delete_removes_block_witness :
  exists i' e w',
    deleteCustomResourceStateMetric (exampleInstance (Some 1) [FinalizerName]) "a@ns"
      (exampleWorld (exampleInstance (Some 1) [FinalizerName])
         (cmDataHeader +:+ cmData "a@ns" ("    - a: b" +:+ LF)) (fun _ => None))
    = Done ((i', e), w') /\
    configMaps w' =
      <[("ns", "cm") := Some (<["config.yaml" := cmDataHeader +:+ TrimRight EmptyString]>
                                {[ "config.yaml" :=
                                     cmDataHeader +:+ cmData "a@ns" ("    - a: b" +:+ LF) ]})]>
        (configMaps (exampleWorld (exampleInstance (Some 1) [FinalizerName])
                       (cmDataHeader +:+ cmData "a@ns" ("    - a: b" +:+ LF))
                       (fun _ => None))).
Proof.
  apply (delete_removes_block (exampleInstance (Some 1) [FinalizerName]) "a@ns"
           (exampleWorld (exampleInstance (Some 1) [FinalizerName])
              (cmDataHeader +:+ cmData "a@ns" ("    - a: b" +:+ LF)) (fun _ => None))
           {[ "config.yaml" := cmDataHeader +:+ cmData "a@ns" ("    - a: b" +:+ LF) ]}
           cmDataHeader ("    - a: b" +:+ LF) EmptyString).
  - reflexivity.
  - vm_compute. reflexivity.
  - vm_compute. reflexivity.
  - reflexivity.
  - right. exists (TrimSuffix cmDataHeader). split; reflexivity.
  - now right.
  - repeat constructor; discriminate.
  - repeat constructor; discriminate.
  - repeat constructor; discriminate.
Defined.

(** ** The placeholder document *)

Lemma asciiSpace_not_hash (c : ascii) : asciiSpace c = true -> Ascii.eqb c hash = false.
Proof.
  intros H. destruct (Ascii.eqb_spec c hash) as [-> | _]; [discriminate | reflexivity].
Qed.

Lemma space2_not_hash (c1 c2 : ascii) :
  space2 c1 c2 = true -> Ascii.eqb c1 hash = false /\ Ascii.eqb c2 hash = false.
Proof.
  intros H. split.
  - destruct (Ascii.eqb_spec c1 hash) as [-> | _]; [discriminate | reflexivity].
  - destruct (Ascii.eqb_spec c2 hash) as [-> | _]; [|reflexivity].
    destruct c1 as [[] [] [] [] [] [] [] []]; discriminate.
Qed.

Lemma space3_not_hash (c1 c2 c3 : ascii) :
  space3 c1 c2 c3 = true ->
  Ascii.eqb c1 hash = false /\ Ascii.eqb c2 hash = false /\ Ascii.eqb c3 hash = false.
Proof.
  intros H. split; [|split].
  - destruct (Ascii.eqb_spec c1 hash) as [-> | _]; [discriminate | reflexivity].
  - destruct (Ascii.eqb_spec c2 hash) as [-> | _]; [|reflexivity].
    destruct c1 as [[] [] [] [] [] [] [] []]; discriminate.
  - destruct (Ascii.eqb_spec c3 hash) as [-> | _]; [|reflexivity].
    destruct c1 as [[] [] [] [] [] [] [] []]; try discriminate;
      destruct c2 as [[] [] [] [] [] [] [] []]; discriminate.
Qed.

(** Trimming white space neither removes nor adds a "#". *)
Lemma hasChar_trimLeftSpace (s : string) :
  hasChar hash (trimLeftSpace s) = hasChar hash s.
Proof.
  assert (H : forall n s, (String.length s <= n)%nat ->
                hasChar hash (trimLeftSpace s) = hasChar hash s).
  { clear s. induction n as [|n IH]; intros s Hlen.
    - destruct s; [reflexivity | cbn in Hlen; lia].
    - destruct s as [|c1 s1]; [reflexivity |]. cbn [trimLeftSpace String.length] in *.
      destruct (asciiSpace c1) eqn:H1.
      { rewrite IH by lia. cbn [hasChar]. now rewrite (asciiSpace_not_hash c1 H1). }
      destruct s1 as [|c2 s2]; [reflexivity |]. cbn [String.length] in Hlen.
      destruct (space2 c1 c2) eqn:H2.
      { rewrite IH by lia. destruct (space2_not_hash c1 c2 H2) as [E1 E2].
        cbn [hasChar]. now rewrite E1, E2. }
      destruct s2 as [|c3 s3]; [reflexivity |]. cbn [String.length] in Hlen.
      destruct (space3 c1 c2 c3) eqn:H3; [|reflexivity].
      rewrite IH by lia. destruct (space3_not_hash c1 c2 c3 H3) as (E1 & E2 & E3).
      cbn [hasChar]. now rewrite E1, E2, E3. }
  now apply (H (String.length s)).
Qed.

Lemma hasChar_trimLeftSpaceRev (s : string) :
  hasChar hash (trimLeftSpaceRev s) = hasChar hash s.
Proof.
  assert (H : forall n s, (String.length s <= n)%nat ->
                hasChar hash (trimLeftSpaceRev s) = hasChar hash s).
  { clear s. induction n as [|n IH]; intros s Hlen.
    - destruct s; [reflexivity | cbn in Hlen; lia].
    - destruct s as [|c1 s1]; [reflexivity |]. cbn [trimLeftSpaceRev String.length] in *.
      destruct (asciiSpace c1) eqn:H1.
      { rewrite IH by lia. cbn [hasChar]. now rewrite (asciiSpace_not_hash c1 H1). }
      destruct s1 as [|c2 s2]; [reflexivity |]. cbn [String.length] in Hlen.
      destruct (space2 c2 c1) eqn:H2.
      { rewrite IH by lia. destruct (space2_not_hash c2 c1 H2) as [E2 E1].
        cbn [hasChar]. now rewrite E1, E2. }
      destruct s2 as [|c3 s3]; [reflexivity |]. cbn [String.length] in Hlen.
      destruct (space3 c3 c2 c1) eqn:H3; [|reflexivity].
      rewrite IH by lia. destruct (space3_not_hash c3 c2 c1 H3) as (E3 & E2 & E1).
      cbn [hasChar]. now rewrite E1, E2, E3. }
  now apply (H (String.length s)).
Qed.

Lemma hasChar_rev_app (c : ascii) (s1 s2 : string) :
  hasChar c (String.rev_app s1 s2) = hasChar c s1 || hasChar c s2.
Proof.
  revert s2. induction s1 as [|x s1 IH]; intros s2; [reflexivity |].
  cbn [String.rev_app hasChar]. rewrite IH. cbn [hasChar].
  destruct (Ascii.eqb x c), (hasChar c s1), (hasChar c s2); reflexivity.
Qed.

Lemma hasChar_rev (c : ascii) (s : string) : hasChar c (String.rev s) = hasChar c s.
Proof. unfold String.rev. rewrite hasChar_rev_app. cbn. apply orb_false_r. Qed.

Lemma hasChar_TrimSpace (s : string) : hasChar hash (TrimSpace s) = hasChar hash s.
Proof.
  unfold TrimSpace.
  now rewrite hasChar_rev, hasChar_trimLeftSpaceRev, hasChar_rev, hasChar_trimLeftSpace.
Qed.

Lemma hasChar_Split (c : ascii) (s : string) :
  hasChar c s = false -> Forall (fun l => hasChar c l = false) (Split s).
Proof.
  induction s as [|x s IH]; cbn [hasChar Split].
  - repeat constructor.
  - intros [Hx Hs]%orb_false_iff. specialize (IH Hs).
    destruct (isNL x); [constructor; [reflexivity | assumption] |].
    unfold cons_head. destruct (Split s) as [|l ls].
    + repeat constructor. cbn. now rewrite Hx.
    + inversion IH; subst. constructor; [|assumption]. cbn. now rewrite Hx.
Qed.

Lemma placeholder_no_marker (doc name : string) :
  TrimSpace doc = "{}" ->
  Forall (fun l => l <> beginMarker name) (Split doc) /\
  Forall (fun l => l <> endMarker name) (Split doc).
Proof.
  intros H.
  assert (Hh : hasChar hash doc = false) by (rewrite <- hasChar_TrimSpace, H; reflexivity).
  apply (hasChar_Split hash) in Hh.
  split; (eapply Forall_impl; [exact Hh |]); intros l Hl ->; discriminate.
Qed.

(** X15.  On every placeholder document, that is "{}" with any white space
    around it, whatever the key and the fragment: the locator finds no
    block, the add path gives the header preamble followed by the block, and
    the removal reports "not found". *)
Theorem upsert_placeholder (doc name dataYaml : string) :
  TrimSpace doc = "{}" ->
  findBlock name (Split doc) = (false, -1, -1) /\
  upsert doc name dataYaml = Done (Some (cmDataHeader +:+ cmData name dataYaml)) /\
  removeBlock doc name = Done None.
Proof.
  intros H. destruct (placeholder_no_marker doc name H) as [HB HE].
  assert (Hf : findBlock name (Split doc) = (false, -1, -1)).
  { unfold findBlock. now apply findBlock_loop_no_marker. }
  split; [exact Hf |]. unfold upsert, removeBlock. rewrite Hf, H. now split.
Qed.

Lemma upsert_placeholder_witness :
  upsert (" {}" +:+ LF) "a@ns" ("    - a: b" +:+ LF)
  = Done (Some (cmDataHeader +:+ cmData "a@ns" ("    - a: b" +:+ LF))).
Proof.
  apply (upsert_placeholder (" {}" +:+ LF) "a@ns" ("    - a: b" +:+ LF)).
  reflexivity.
Defined.

(** ** The change-admission predicates *)

Section Admission.

Variable getNamespace : string -> error + option (gmap string string).
Variables selector namespaceSelector : Selector.

(** X16.  An update is admitted exactly when the generation, the labels or
    the finalizers changed, the selector matches the labels of the new
    object, and the namespace of the new object is fetched and matches the
    namespace selector.  So an update that changes the status only never
    starts a reconciliation. *)
Theorem update_admitted_iff (objectOld objectNew : Object) :
  combinedPredicate getNamespace selector namespaceSelector
    (UpdateEvent objectOld objectNew) = true <->
  (objGeneration objectNew <> objGeneration objectOld \/
   objLabels objectOld <> objLabels objectNew \/
   objFinalizers objectOld <> objFinalizers objectNew) /\
  selector (objLabels objectNew) = true /\
  exists nsLabels, getNamespace (objNamespace objectNew) = inr nsLabels /\
                   namespaceSelector nsLabels = true.
Proof.
  unfold combinedPredicate, And, Or. cbn [forallb existsb].
  rewrite orb_false_r, andb_true_r, !andb_true_iff, !orb_true_iff.
  cbn [GenerationChangedPredicate LabelsChangedPredicate FinalizersChangedPredicate
       LabelSelectorPredicate NamespaceLabelSelectorPredicate].
  rewrite !negb_true_iff, !bool_decide_eq_false, Z.eqb_neq.
  unfold namespaceMatches.
  split.
  - intros (Hc & Hs & Hn). split; [tauto | split; [exact Hs |]].
    destruct (getNamespace (objNamespace objectNew)) as [err|l]; [discriminate |].
    now exists l.
  - intros (Hc & Hs & l & Hg & Hn). split; [tauto | split; [exact Hs |]].
    now rewrite Hg.
Qed.

(** X17.  Whatever the kind of the event, it is admitted only if the
    selector matches the labels of its object and the namespace of the
    object is fetched and matches the namespace selector; a namespace that
    cannot be fetched rejects the event, without an error. *)
Theorem admitted_matches_selectors (e : event) :
  combinedPredicate getNamespace selector namespaceSelector e = true ->
  selector (objLabels (judged e)) = true /\
  exists nsLabels, getNamespace (objNamespace (judged e)) = inr nsLabels /\
                   namespaceSelector nsLabels = true.
Proof.
  unfold combinedPredicate, And. cbn [forallb].
  rewrite !andb_true_iff. intros (_ & Hs & Hn & _).
  assert (Hs' : selector (objLabels (judged e)) = true) by (destruct e; exact Hs).
  assert (Hn' : namespaceMatches getNamespace namespaceSelector (objNamespace (judged e)) = true)
    by (destruct e; exact Hn).
  split; [exact Hs' |]. unfold namespaceMatches in Hn'.
  destruct (getNamespace (objNamespace (judged e))) as [err|l]; [discriminate |].
  now exists l.
Qed.

End Admission.

Lemma update_admitted_iff_witness :
  combinedPredicate unlabelledNamespaces everything everything
    (UpdateEvent {| objLabels := None; objFinalizers := None;
                    objGeneration := 1; objNamespace := "ns" |}
                 {| objLabels := None; objFinalizers := Some [FinalizerName];
                    objGeneration := 1; objNamespace := "ns" |}) = true.
Proof.
  apply (proj2 (update_admitted_iff unlabelledNamespaces everything everything _ _)).
  split; [right; right; discriminate | split; [reflexivity |]].
  exists None. now split.
Defined.

Lemma admitted_matches_selectors_witness :
  everything None = true /\
  exists nsLabels, unlabelledNamespaces "ns" = inr nsLabels /\ everything nsLabels = true.
Proof.
  apply (admitted_matches_selectors unlabelledNamespaces everything everything
           (CreateEvent {| objLabels := None; objFinalizers := None;
                           objGeneration := 1; objNamespace := "ns" |})).
  reflexivity.
Defined.
